(** * The gossip message codec of smudge (vendored in tamtam)

    A shallow embedding of [message.go]: the message model, [addMember],
    [getForwardTo], [encode], [decodeMessage] and [decodeMembers], together
    with the properties the specification states about them.

    Conventions.
    - A Go [byte], [uint16] or [uint32] is a [Z]; conversions and shifts write
      their wrap-around out ([byte_of], [Z.land], [Z.shiftr]).
    - A Go [int] used as an index or a length is a [nat].
    - A Go pointer that may be [nil] is an [option].
    - A run-time panic is the outcome [Panic]; a function that cannot panic
      is a plain function. *)

From Stdlib Require Import ZArith List Lia Bool.
From stdpp Require Import base list strings.
Import ListNotations.

Set Default Proof Using "Type".

(** ** Outcomes of Go code that may panic *)

Inductive fault : Type :=
  | IndexOutOfRange   (* s[i] with i >= len(s) *)
  | SliceBounds       (* s[lo:hi] with hi > cap(s), or s[lo:] with lo > len(s) *)
  | NilDereference.   (* field access through a nil pointer *)

(** [OutOfFuel] is not a Go behaviour: it marks a loop of the model that was
    given too few iterations.  [decodeMembers_fuel_enough] shows that the
    model never produces it. *)
Inductive outcome (A : Type) : Type :=
  | Return (a : A)
  | Panic (f : fault)
  | OutOfFuel.
Arguments Return {A} a.
Arguments Panic {A} f.
Arguments OutOfFuel {A}.

Definition bind {A B : Type} (c : outcome A) (k : A -> outcome B) : outcome B :=
  match c with
  | Return a => k a
  | Panic f => Panic f
  | OutOfFuel => OutOfFuel
  end.

Notation "'let*' x ':=' c 'in' k" := (bind c (fun x => k))
  (at level 10, x binder, c at level 200, k at level 200).

(** [p.f] for a pointer [p]. *)
Definition deref {A : Type} (p : option A) : outcome A :=
  match p with
  | Some a => Return a
  | None => Panic NilDereference
  end.

(** ** Bytes and byte slices *)

(** The conversion [byte(x)]. *)
Definition byte_of (z : Z) : Z := z mod 256.

Definition is_byte (z : Z) : Prop := (0 <= z < 256)%Z.
Definition is_uint16 (z : Z) : Prop := (0 <= z < 65536)%Z.
Definition is_uint32 (z : Z) : Prop := (0 <= z < 4294967296)%Z.

(** A Go slice is a window on a backing array: [elems] are the [len(s)]
    bytes it shows, [spare] the bytes of the array after them, up to
    [cap(s)].  Indexing is checked against the length, re-slicing with an
    upper bound against the capacity. *)
Record slice : Type := Slice { elems : list Z; spare : list Z }.

Definition len (s : slice) : nat := length (elems s).
Definition cap (s : slice) : nat := length (elems s) + length (spare s).

(** A slice that fills its backing array, as [make([]byte, n, n)] returns. *)
Definition full (l : list Z) : slice := Slice l [].

(** [s[i]] *)
Definition index (s : slice) (i : nat) : outcome Z :=
  match elems s !! i with
  | Some b => Return b
  | None => Panic IndexOutOfRange
  end.

(** [s[lo:hi]] *)
Definition reslice (s : slice) (lo hi : nat) : outcome slice :=
  if (lo <=? hi) && (hi <=? cap s)
  then Return (Slice (take (hi - lo) (drop lo (elems s ++ spare s)))
                     (drop hi (elems s ++ spare s)))
  else Panic SliceBounds.

(** [s[lo:]] *)
Definition reslice_from (s : slice) (lo : nat) : outcome slice :=
  if lo <=? len s
  then Return (Slice (drop lo (elems s)) (spare s))
  else Panic SliceBounds.

(** [copy(dst, src)]: the first [min(len(dst), len(src))] elements. *)
Definition copy (dst src : list Z) : list Z :=
  take (length dst) src ++ drop (length src) dst.

(** [l[i]] and [l[i] = v] on a buffer that fills its array. *)
Definition at_index (l : list Z) (i : nat) : outcome Z :=
  match l !! i with
  | Some b => Return b
  | None => Panic IndexOutOfRange
  end.

Definition store (bytes : list Z) (i : nat) (v : Z) : outcome (list Z) :=
  if i <? length bytes then Return (<[i:=v]> bytes) else Panic IndexOutOfRange.

(** ** Wire codec primitives *)

(** Modelled from the spec: the file that defines [encodeByte],
    [encodeUint16], [encodeUint32], [decodeByte], [decodeUint16] and
    [decodeUint32] is not among the sources.  Section 4.2: each encoder
    writes a fixed-width big-endian value at a buffer offset and returns the
    number of bytes written; each decoder returns the value and the new
    cursor; none of them validates buffer bounds. *)
Definition encodeByte (b : Z) (bytes : list Z) (p : nat) : outcome (list Z * nat) :=
  let* bytes := store bytes p b in
  Return (bytes, 1).

Definition encodeUint16 (n : Z) (bytes : list Z) (p : nat) : outcome (list Z * nat) :=
  let* bytes := store bytes p (byte_of (Z.shiftr n 8)) in
  let* bytes := store bytes (p + 1) (byte_of n) in
  Return (bytes, 2).

Definition encodeUint32 (n : Z) (bytes : list Z) (p : nat) : outcome (list Z * nat) :=
  let* bytes := store bytes p (byte_of (Z.shiftr n 24)) in
  let* bytes := store bytes (p + 1) (byte_of (Z.shiftr n 16)) in
  let* bytes := store bytes (p + 2) (byte_of (Z.shiftr n 8)) in
  let* bytes := store bytes (p + 3) (byte_of n) in
  Return (bytes, 4).

Definition decodeByte (bytes : slice) (p : nat) : outcome (Z * nat) :=
  let* b := index bytes p in
  Return (b, p + 1).

Definition decodeUint16 (bytes : slice) (p : nat) : outcome (Z * nat) :=
  let* b0 := index bytes p in
  let* b1 := index bytes (p + 1) in
  Return (Z.lor (Z.shiftl b0 8) b1, p + 2).

Definition decodeUint32 (bytes : slice) (p : nat) : outcome (Z * nat) :=
  let* b0 := index bytes p in
  let* b1 := index bytes (p + 1) in
  let* b2 := index bytes (p + 2) in
  let* b3 := index bytes (p + 3) in
  Return (Z.lor (Z.lor (Z.lor (Z.shiftl b0 24) (Z.shiftl b1 16)) (Z.shiftl b2 8)) b3,
          p + 4).

(** ** [hash/adler32] of the Go library *)

Definition adler32_step (st : Z * Z) (b : Z) : Z * Z :=
  let a := ((fst st + b) mod 65521)%Z in
  (a, ((snd st + a) mod 65521)%Z).

Definition adler32 (bs : list Z) : Z :=
  let st := fold_left adler32_step bs (1%Z, 0%Z) in
  Z.lor (Z.shiftl (snd st) 16) (fst st).

(** ** [net.IP] of the Go library *)

(** An address is a byte slice: 4 bytes, 16 bytes, or [nil] (the empty
    list). *)
Definition IP : Type := list Z.

Definition IPv4len : nat := 4.
Definition IPv6len : nat := 16.

Definition v4InV6Prefix : list Z :=
  [0; 0; 0; 0; 0; 0; 0; 0; 0; 0; 255; 255]%Z.

Definition IPv4 (a b c d : Z) : IP := v4InV6Prefix ++ [a; b; c; d].

Definition To4 (ip : IP) : IP :=
  if length ip =? IPv4len then ip
  else if (length ip =? IPv6len) && bool_decide (take 12 ip = v4InV6Prefix)
  then drop 12 ip
  else [].

Definition To16 (ip : IP) : IP :=
  if length ip =? IPv4len then v4InV6Prefix ++ ip
  else if length ip =? IPv6len then ip
  else [].

Definition IPEqual (ip x : IP) : bool :=
  if length ip =? length x then bool_decide (ip = x)
  else if (length ip =? IPv4len) && (length x =? IPv6len)
  then bool_decide (take 12 x = v4InV6Prefix) && bool_decide (ip = drop 12 x)
  else if (length ip =? IPv6len) && (length x =? IPv4len)
  then bool_decide (take 12 ip = v4InV6Prefix) && bool_decide (drop 12 ip = x)
  else false.

(** ** Node status and message verbs *)

(** [type NodeStatus byte]; the ordinals are those of the [Status]
    enumeration of [service.proto]. *)
Definition NodeStatus : Type := Z.
Definition StatusUnknown : NodeStatus := 0%Z.
Definition StatusAlive : NodeStatus := 1%Z.
Definition StatusSuspected : NodeStatus := 2%Z.
Definition StatusDead : NodeStatus := 3%Z.
Definition StatusForwardTo : NodeStatus := 4%Z.

Definition known_status (s : NodeStatus) : Prop := (0 <= s <= 4)%Z.

(** [type messageVerb byte] with the four constants declared by [iota]. *)
Definition messageVerb : Type := Z.
Definition verbPing : messageVerb := 0%Z.
Definition verbAck : messageVerb := 1%Z.
Definition verbPingRequest : messageVerb := 2%Z.
Definition verbNonForwardingPing : messageVerb := 3%Z.

Definition defined_verb (v : messageVerb) : Prop := (0 <= v <= 3)%Z.

(** ** Nodes, broadcasts, members and messages *)

(** Modelled from the spec: the declaration of [Node] is not among the
    sources.  Section 3: a node is identified by its IP address and its UDP
    response port, and has a heartbeat counter and a current status.
    [message.go] reads the fields [ip] and [port] only. *)
Record Node : Type := {
  ip : IP;
  port : Z;
  nodeHeartbeat : Z;
  nodeStatus : NodeStatus
}.

(** Two node pointers name the same node of the directory when their
    addresses are equal as [net.IP.Equal] has it and their ports agree. *)
Definition same_node (a b : Node) : Prop :=
  IPEqual (ip a) (ip b) = true /\ port a = port b.

Definition same_node_ptr (a b : option Node) : Prop :=
  match a, b with
  | Some x, Some y => same_node x y
  | None, None => True
  | _, _ => False
  end.

(** Modelled from the spec: the declaration of [Broadcast] is not among the
    sources ([message.go] reads its field [bytes]).  Section 3: an origin
    node, a per-origin counter and an opaque payload. *)
Record Broadcast : Type := {
  origin : option Node;
  bcastIndex : Z;
  bytes : list Z
}.

Record messageMember : Type := {
  source : option Node;
  heartbeat : Z;
  node : option Node;
  status : NodeStatus
}.

(** A nil slice and an empty slice of members are both the empty list: Go
    gives them the same length, the same iteration and the same [append]. *)
Record message : Type := {
  sender : option Node;
  senderHeartbeat : Z;
  verb : messageVerb;
  members : list messageMember;
  broadcast : option Broadcast
}.

Inductive error : Type :=
  | ErrMemberListOverflow               (* "member list overflow" *)
  | ErrChecksumFailure (sourceIP : IP)  (* "checksum failure from " + sourceIP.String() *)
  | ErrMalformedBroadcast.

Definition newMessage (verb : messageVerb) (sender : option Node)
    (senderHeartbeat : Z) : message :=
  {| sender := sender;
     senderHeartbeat := senderHeartbeat;
     verb := verb;
     members := [];
     broadcast := None |}.

Definition set_members (m : message) (ms : list messageMember) : message :=
  {| sender := sender m;
     senderHeartbeat := senderHeartbeat m;
     verb := verb m;
     members := ms;
     broadcast := broadcast m |}.

Definition addBroadcast (m : message) (b : option Broadcast) : message :=
  {| sender := sender m;
     senderHeartbeat := senderHeartbeat m;
     verb := verb m;
     members := members m;
     broadcast := b |}.

(** [addMember] updates the message in place and returns an error: here it
    returns the message after the call and the error.  The branch for a nil
    member slice only allocates; it and the branch for fewer than 63 members
    both go on to append. *)
Definition addMember (m : message) (node : option Node) (status : NodeStatus)
    (heartbeat : Z) (gossipSource : option Node) : message * option error :=
  if 63 <=? length (members m) then (m, Some ErrMemberListOverflow)
  else
    let messageMember :=
      {| heartbeat := heartbeat;
         node := node;
         status := status;
         source := gossipSource |} in
    (set_members m (members m ++ [messageMember]), None).

(** [len(m.members) > 0 && m.members[0].status == StatusForwardTo] *)
Definition getForwardTo (m : message) : option messageMember :=
  match members m with
  | first :: _ =>
      if (status first =? StatusForwardTo)%Z then Some first else None
  | [] => None
  end.

(** ** The process-wide configuration and the node directory *)

Section Codec.

(** [ipLen] is a package variable set outside [message.go]: the byte width
    of the address family the process runs in. *)
Variable ipLen : nat.

(** The nodes the directory [knownNodes] holds when a datagram is decoded.
    Decoding reads the directory and never registers a node. *)
Variable knownNodes : list Node.

(** Modelled from the spec: [getByIP] and [CreateNodeByIP] are not among the
    sources.  Section 3: nodes are looked up by (IP, port); when the lookup
    finds none, a transient node is created from the IP and port alone, with
    the status of newly observed nodes, and is not registered. *)
Definition getByIP (ip0 : IP) (port0 : Z) : option Node :=
  find (fun n => IPEqual (ip n) ip0 && (port n =? port0)%Z) knownNodes.

Definition CreateNodeByIP (ip0 : IP) (port0 : Z) : option Node * option error :=
  (Some {| ip := ip0; port := port0;
           nodeHeartbeat := 0%Z; nodeStatus := StatusUnknown |}, None).

(** The idiom of the decoder:
    [n := knownNodes.getByIP(ip, port); if n == nil { n, _ = CreateNodeByIP(ip, port) }] *)
Definition lookupOrCreate (ip0 : IP) (port0 : Z) : option Node :=
  match getByIP ip0 port0 with
  | Some n => Some n
  | None => fst (CreateNodeByIP ip0 port0)
  end.

(** ** Addresses on the wire *)

(** [for i := 0; i < n; i++ { bytes[p+i] = ipb[i] }], from index [i]. *)
Fixpoint writeIP (ipb : IP) (bytes : list Z) (p i n : nat) : outcome (list Z) :=
  match n with
  | 0 => Return bytes
  | S n' =>
      let* b := at_index ipb i in
      let* bytes := store bytes (p + i) b in
      writeIP ipb bytes p (S i) n'
  end.

(** The address bytes an encoder takes for a node:
    [if ipLen == net.IPv4len { ipb = ip.To4() } else if ipLen == net.IPv6len { ipb = ip.To16() }]
    with [ipb] keeping its earlier value otherwise. *)
Definition pickIP (ipb : IP) (n : option Node) : outcome IP :=
  if ipLen =? IPv4len then let* n := deref n in Return (To4 (ip n))
  else if ipLen =? IPv6len then let* n := deref n in Return (To16 (ip n))
  else Return ipb.

(** The address a decoder reads at [p]:
    [if ipLen == net.IPv6len { ip = make(net.IP, net.IPv6len); copy(ip, bytes[p:p+16]) }
     else { ip = net.IPv4(bytes[p+0], bytes[p+1], bytes[p+2], bytes[p+3]) }] *)
Definition readIP (bytes : slice) (p : nat) : outcome IP :=
  if ipLen =? IPv6len then
    let* s := reslice bytes p (p + 16) in
    Return (copy (replicate IPv6len 0%Z) (elems s))
  else
    let* b0 := index bytes (p + 0) in
    let* b1 := index bytes (p + 1) in
    let* b2 := index bytes (p + 2) in
    let* b3 := index bytes (p + 3) in
    Return (IPv4 b0 b1 b2 b3).

(** ** Broadcast payload *)

(** Modelled from the spec: [Broadcast.encode] and [decodeBroadcast] are not
    among the sources.  Section 4.3: the encoding is the origin IP ([ipLen]
    bytes), the origin port (2 bytes), the counter (4 bytes), the payload
    length (2 bytes) and the payload; decoding is the structural inverse and
    reports a malformed section as an error.  The address is written and
    read as [message.go] does for a member. *)
Definition Broadcast_encode (b : Broadcast) : outcome (list Z) :=
  let buf := replicate (8 + ipLen) 0%Z in
  let p := 0 in
  let* ipb := pickIP [] (origin b) in
  let* buf := writeIP ipb buf p 0 ipLen in
  let p := p + ipLen in
  let* o := deref (origin b) in
  let* '(buf, n) := encodeUint16 (port o) buf p in
  let p := p + n in
  let* '(buf, n) := encodeUint32 (bcastIndex b) buf p in
  let p := p + n in
  let* '(buf, n) := encodeUint16 (Z.of_nat (length (bytes b)) mod 65536)%Z buf p in
  Return (buf ++ bytes b).

Definition decodeBroadcast (bytes : slice) : option Broadcast * option error :=
  if len bytes <? 8 + ipLen then (None, Some ErrMalformedBroadcast)
  else
    match
      (let* oip := readIP bytes 0 in
       let p := ipLen in
       let* '(oport, p) := decodeUint16 bytes p in
       let* '(counter, p) := decodeUint32 bytes p in
       let* '(n, p) := decodeUint16 bytes p in
       Return (oip, oport, counter, Z.to_nat n, p))
    with
    | Return (oip, oport, counter, n, p) =>
        if len bytes <? p + n then (None, Some ErrMalformedBroadcast)
        else (Some {| origin := lookupOrCreate oip oport;
                      bcastIndex := counter;
                      bytes := take n (drop p (elems bytes)) |}, None)
    | _ => (None, Some ErrMalformedBroadcast)
    end.

(** ** [encode] *)

(** The body of [for _, member := range m.members]: writes one member at
    [p] and returns the buffer and the cursor after it. *)
Definition encodeMember (member : messageMember) (bytes : list Z) (p : nat)
    : outcome (list Z * nat) :=
  let mnode := node member in
  let mstatus := status member in
  let mcode := heartbeat member in
  let snode := source member in
  let* bytes := store bytes p (byte_of mstatus) in
  let p := p + 1 in
  let ipb : IP := [] in
  let* ipb := pickIP ipb mnode in
  let* bytes := writeIP ipb bytes p 0 ipLen in
  let p := p + ipLen in
  let* mn := deref mnode in
  let* '(bytes, n) := encodeUint16 (port mn) bytes p in
  let p := p + n in
  let* '(bytes, n) := encodeUint32 mcode bytes p in
  let p := p + n in
  match snode with
  | Some sn =>
      let* ipb := pickIP ipb snode in
      let* bytes := writeIP ipb bytes p 0 ipLen in
      let p := p + ipLen in
      let* '(bytes, n) := encodeUint16 (port sn) bytes p in
      let p := p + n in
      Return (bytes, p)
  | None =>
      let p := p + (ipLen + 2) in
      Return (bytes, p)
  end.

Fixpoint encodeMembers (ms : list messageMember) (bytes : list Z) (p : nat)
    : outcome (list Z * nat) :=
  match ms with
  | [] => Return (bytes, p)
  | member :: rest =>
      let* '(bytes, p) := encodeMember member bytes p in
      encodeMembers rest bytes p
  end.

(** [for i, v := range bbytes { bytes[p+i] = v }], from index [i]. *)
Fixpoint writeAll (bbytes : list Z) (bytes : list Z) (p i : nat) : outcome (list Z) :=
  match bbytes with
  | [] => Return bytes
  | v :: rest =>
      let* bytes := store bytes (p + i) v in
      writeAll rest bytes p (S i)
  end.

Definition packVerb (memberCount : nat) (verb : messageVerb) : Z :=
  let verbByte := byte_of (Z.of_nat memberCount) in
  Z.lor (byte_of (Z.shiftl verbByte 2)) (byte_of verb).

Definition encode (m : message) : outcome (list Z) :=
  let size := 11 + length (members m) * (9 + ipLen + ipLen) in
  let size :=
    match broadcast m with
    | Some b => size + (8 + ipLen + length (bytes b))
    | None => size
    end in
  let bytes := replicate size 0%Z in
  let p := 4 in
  let verbByte := packVerb (length (members m)) (verb m) in
  let* '(bytes, n) := encodeByte verbByte bytes p in
  let p := p + n in
  let* s := deref (sender m) in
  let* '(bytes, n) := encodeUint16 (port s) bytes p in
  let p := p + n in
  let* '(bytes, n) := encodeUint32 (senderHeartbeat m) bytes p in
  let p := p + n in
  let* '(bytes, p) := encodeMembers (members m) bytes p in
  let* bytes :=
    match broadcast m with
    | Some b =>
        let* bbytes := Broadcast_encode b in
        writeAll bbytes bytes p 0
    | None => Return bytes
    end in
  let* tail := reslice_from (full bytes) 4 in
  let checksum := adler32 (elems tail) in
  let* '(bytes, _) := encodeUint32 checksum bytes 0 in
  Return bytes.

(** ** [decodeMessage] and [decodeMembers] *)

(** The unpacking of byte 04: [verb := messageVerb(v & 0x03)] and
    [memberCount := int(v >> 2)]. *)
Definition unpackVerb (v : Z) : messageVerb := Z.land v 3.
Definition unpackCount (v : Z) : nat := Z.to_nat (Z.shiftr v 2).

(** The body of [for p < len(bytes)]: reads one member at [p] and returns it
    with the cursor after it. *)
Definition decodeMember (bytes : slice) (p : nat) : outcome (messageMember * nat) :=
  let* mstatus := index bytes p in
  let p := p + 1 in
  let* mip := readIP bytes p in
  let p := p + ipLen in
  let* '(mport, p) := decodeUint16 bytes p in
  let* '(mcode, p) := decodeUint32 bytes p in
  let mnode := if 0 <? length mip then lookupOrCreate mip mport else None in
  let* sip := readIP bytes p in
  let p := p + ipLen in
  let* '(sport, p) := decodeUint16 bytes p in
  let snode := if 0 <? length sip then lookupOrCreate sip sport else None in
  let member :=
    {| heartbeat := mcode;
       node := mnode;
       source := snode;
       status := mstatus |} in
  Return (member, p).

Fixpoint decodeMembers_loop (fuel : nat) (bytes : slice) (p : nat)
    (members : list messageMember) : outcome (list messageMember) :=
  if p <? len bytes then
    match fuel with
    | 0 => OutOfFuel
    | S fuel' =>
        let* '(member, p) := decodeMember bytes p in
        decodeMembers_loop fuel' bytes p (members ++ [member])
    end
  else Return members.

(** Every iteration moves the cursor forward, so [len(bytes)] iterations are
    more than the loop can make. *)
Definition decodeMembers (memberCount : nat) (bytes : slice)
    : outcome (list messageMember) :=
  decodeMembers_loop (len bytes) bytes 0 [].

Definition decodeMessage (sourceIP : IP) (bytes : slice)
    : outcome (message * option error) :=
  let p := 0 in
  let* '(checksumStated, p) := decodeUint32 bytes p in
  let* tail := reslice_from bytes 4 in
  let checksumCalculated := adler32 (elems tail) in
  if negb (checksumCalculated =? checksumStated)%Z then
    Return (newMessage 255%Z None 0%Z, Some (ErrChecksumFailure sourceIP))
  else
    let* '(v, p) := decodeByte bytes p in
    let verb := unpackVerb v in
    let memberCount := unpackCount v in
    let* '(senderPort, p) := decodeUint16 bytes p in
    let* '(senderHeartbeat, p) := decodeUint32 bytes p in
    let sender := lookupOrCreate sourceIP senderPort in
    let m := newMessage verb sender senderHeartbeat in
    let memberLastIndex := p + memberCount * (9 + ipLen + ipLen) in
    let* m :=
      if p <? len bytes then
        let* s := reslice bytes p memberLastIndex in
        let* ms := decodeMembers memberCount s in
        Return (set_members m ms)
      else Return m in
    let* '(b, err) :=
      if memberLastIndex <? len bytes then
        let* s := reslice_from bytes memberLastIndex in
        Return (decodeBroadcast s)
      else Return (broadcast m, None) in
    Return (addBroadcast m b, err).

(** ** The datagram layout, as data

    The byte sequences section 6 of the specification tabulates.  They are
    what [encode] is shown to write, not part of the code. *)

Definition be16 (n : Z) : list Z := [byte_of (Z.shiftr n 8); byte_of n].

Definition be32 (n : Z) : list Z :=
  [byte_of (Z.shiftr n 24); byte_of (Z.shiftr n 16); byte_of (Z.shiftr n 8); byte_of n].

(** The [ipLen] address bytes written for a node. *)
Definition wireIP (n : Node) : list Z :=
  take ipLen
    (if ipLen =? IPv4len then To4 (ip n)
     else if ipLen =? IPv6len then To16 (ip n)
     else []).

Definition sourceWire (src : option Node) : list Z :=
  match src with
  | Some sn => wireIP sn ++ be16 (port sn)
  | None => replicate (ipLen + 2) 0%Z
  end.

Definition memberWire (member : messageMember) : list Z :=
  match node member with
  | Some mn =>
      [byte_of (status member)] ++ wireIP mn ++ be16 (port mn)
        ++ be32 (heartbeat member) ++ sourceWire (source member)
  | None => []
  end.

Definition broadcastWire (b : option Broadcast) : list Z :=
  match b with
  | Some b =>
      match origin b with
      | Some o =>
          wireIP o ++ be16 (port o) ++ be32 (bcastIndex b)
            ++ be16 (Z.of_nat (length (bytes b)) mod 65536)%Z ++ bytes b
      | None => []
      end
  | None => []
  end.

(** Everything after the checksum. *)
Definition bodyWire (m : message) : list Z :=
  match sender m with
  | Some s =>
      [packVerb (length (members m)) (verb m)] ++ be16 (port s)
        ++ be32 (senderHeartbeat m)
        ++ concat (map memberWire (members m)) ++ broadcastWire (broadcast m)
  | None => []
  end.

Definition messageWire (m : message) : list Z :=
  be32 (adler32 (bodyWire m)) ++ bodyWire m.

(** The address a decoder makes of the [ipLen] address bytes of a slot. *)
Definition wireToIP (a : list Z) : IP :=
  if ipLen =? IPv6len then a
  else match a with
       | [b0; b1; b2; b3] => IPv4 b0 b1 b2 b3
       | _ => []
       end.

(** The bytes of the [i]-th member slot of a datagram. *)
Definition memberSlot (bs : list Z) (i : nat) : list Z :=
  take (9 + ipLen + ipLen) (drop (11 + i * (9 + ipLen + ipLen)) bs).

(** The messages [encode] does not panic on: every pointer it follows is
    set, and every address has a form of the configured width. *)
Definition encodable_node (n : Node) : Prop := length (wireIP n) = ipLen.

Definition encodable_ptr (n : option Node) : Prop :=
  match n with
  | Some x => encodable_node x
  | None => False
  end.

Definition encodable_member (member : messageMember) : Prop :=
  encodable_ptr (node member) /\
  (forall sn, source member = Some sn -> encodable_node sn).

Definition encodable_broadcast (b : option Broadcast) : Prop :=
  match b with
  | Some b => encodable_ptr (origin b)
  | None => True
  end.

Definition encodable (m : message) : Prop :=
  sender m <> None /\
  Forall encodable_member (members m) /\
  encodable_broadcast (broadcast m).

End Codec.


(** ** Messages that carry the same data

    A decoded message holds the nodes the directory has, or nodes made on
    the spot, never the node objects of the sender: messages are compared
    field by field with nodes compared by address and port. *)

Definition same_member (a b : messageMember) : Prop :=
  status a = status b /\
  heartbeat a = heartbeat b /\
  same_node_ptr (node a) (node b) /\
  same_node_ptr (source a) (source b).

Definition same_broadcast (a b : option Broadcast) : Prop :=
  match a, b with
  | Some x, Some y =>
      same_node_ptr (origin x) (origin y) /\
      bcastIndex x = bcastIndex y /\
      bytes x = bytes y
  | None, None => True
  | _, _ => False
  end.

Definition same_message (a b : message) : Prop :=
  verb a = verb b /\
  senderHeartbeat a = senderHeartbeat b /\
  same_node_ptr (sender a) (sender b) /\
  Forall2 same_member (members a) (members b) /\
  same_broadcast (broadcast a) (broadcast b).

(** The messages whose fields hold values of their Go types and that keep
    to the limits of the format: one of the four verbs, at most 63 members,
    a payload whose length fits 16 bits. *)
Definition typed_ptr (n : option Node) : Prop :=
  forall x, n = Some x -> is_uint16 (port x).

Definition typed_member (x : messageMember) : Prop :=
  is_byte (status x) /\ is_uint32 (heartbeat x) /\
  typed_ptr (node x) /\ typed_ptr (source x).

Definition typed_broadcast (b : option Broadcast) : Prop :=
  forall x, b = Some x ->
    is_uint32 (bcastIndex x) /\ is_uint16 (Z.of_nat (length (bytes x))) /\
    typed_ptr (origin x).

Definition typed_message (m : message) : Prop :=
  defined_verb (verb m) /\
  length (members m) <= 63 /\
  is_uint32 (senderHeartbeat m) /\
  typed_ptr (sender m) /\
  Forall typed_member (members m) /\
  typed_broadcast (broadcast m).
(** * Sample messages and datagrams *)

(** A PING whose first member carries [StatusForwardTo]. *)
Definition forwardToMember : messageMember :=
  {| source := None; heartbeat := 0%Z; node := None; status := StatusForwardTo |}.

Definition pingWithForwardTo : message :=
  {| sender := None; senderHeartbeat := 0%Z; verb := verbPing;
     members := [forwardToMember]; broadcast := None |}.

(** A message that holds 63 members. *)
Definition fullMessage : message :=
  {| sender := None; senderHeartbeat := 0%Z; verb := verbPing;
     members := replicate 63 forwardToMember; broadcast := None |}.

Definition nodeA : Node :=
  {| ip := [10; 0; 0; 1]%Z; port := 7946%Z;
     nodeHeartbeat := 0%Z; nodeStatus := StatusAlive |}.

Definition nodeB : Node :=
  {| ip := [10; 0; 0; 2]%Z; port := 9999%Z;
     nodeHeartbeat := 5%Z; nodeStatus := StatusAlive |}.

(** The PING of section 8: sender port 7946, heartbeat 42, no members, no
    broadcast; and its encoding in an IPv4 process. *)
Definition pingFromA : message := newMessage verbPing (Some nodeA) 42%Z.


(** An ACK with 5 members. *)
Definition ackWith5 : message :=
  {| sender := Some nodeA; senderHeartbeat := 42%Z; verb := verbAck;
     members :=
       replicate 5 {| source := Some nodeA; heartbeat := 1%Z;
                      node := Some nodeB; status := StatusAlive |};
     broadcast := None |}.

(** A PING that gossips about [nodeB] without naming the source of the
    gossip; and its encoding in an IPv4 process. *)
Definition gossipWithoutSource : message :=
  {| sender := Some nodeA; senderHeartbeat := 42%Z; verb := verbPing;
     members :=
       [{| source := None; heartbeat := 7%Z;
           node := Some nodeB; status := StatusAlive |}];
     broadcast := None |}.

Definition gossipDatagram : list Z :=
  [10; 134; 0; 162; 4; 31; 10; 0; 0; 0; 42;
   1; 10; 0; 0; 2; 39; 15; 0; 0; 0; 7; 0; 0; 0; 0; 0; 0]%Z.

(** The datagram of section 8's last scenario, for an IPv4 process: the
    checksum is right, the packed byte [0x08] declares 2 members, and the
    bytes of 1 member follow. *)
Definition overclaimingDatagram : list Z :=
  [10; 230; 0; 166; 8; 31; 10; 0; 0; 0; 42;
   1; 10; 0; 0; 2; 39; 15; 0; 0; 0; 7; 0; 0; 0; 0; 0; 0]%Z.

(** A header alone whose packed byte [0x14] declares 5 members. *)
Definition headerOnlyDatagram : list Z :=
  [1; 169; 0; 104; 20; 31; 10; 0; 0; 0; 42]%Z.

(** One IPv4 member slot whose status byte, 200, is no ordinal of the
    status enumeration. *)
Definition slotWithStatus200 : list Z :=
  [200; 10; 0; 0; 2; 39; 15; 0; 0; 0; 7; 10; 0; 0; 1; 31; 10]%Z.

(** The node [CreateNodeByIP] makes for an address the directory does not
    hold. *)
Definition transient (ip0 : IP) (port0 : Z) : Node :=
  {| ip := ip0; port := port0;
     nodeHeartbeat := 0%Z; nodeStatus := StatusUnknown |}.

(** What an IPv4 process with an empty directory decodes from
    [gossipDatagram] received from [nodeA]'s address. *)
Definition decodedGossip : message :=
  {| sender := Some (transient (ip nodeA) 7946%Z);
     senderHeartbeat := 42%Z; verb := verbPing;
     members :=
       [{| source := Some (transient (IPv4 0 0 0 0) 0%Z);
           heartbeat := 7%Z;
           node := Some (transient (IPv4 10 0 0 2) 9999%Z);
           status := StatusAlive |}];
     broadcast := None |}.

(** What an IPv4 process whose directory holds [nodeA] and [nodeB] decodes
    from [gossipDatagram] received from [nodeA]'s address. *)
Definition decodedGossipKnown : message :=
  {| sender := Some nodeA;
     senderHeartbeat := 42%Z; verb := verbPing;
     members :=
       [{| source := Some (transient (IPv4 0 0 0 0) 0%Z);
           heartbeat := 7%Z;
           node := Some nodeB;
           status := StatusAlive |}];
     broadcast := None |}.

(** * Further definitions *)

(** ** The names of the verbs *)

(** [func (v messageVerb) String() string] *)
Definition messageVerb_String (v : messageVerb) : string :=
  if (v =? verbPing)%Z then "PING"
  else if (v =? verbAck)%Z then "ACK"
  else if (v =? verbPingRequest)%Z then "PINGREQ"
  else if (v =? verbNonForwardingPing)%Z then "NFPING"
  else "UNDEFINED".

(** ** Runs of [addMember] *)

(** [m.addMember(x.node, x.status, x.heartbeat, x.source)] for each [x] in
    turn, whatever error each call returns. *)
Definition addMembers (m : message) (xs : list messageMember) : message :=
  fold_left
    (fun m x => fst (addMember m (node x) (status x) (heartbeat x) (source x)))
    xs m.

(** Gossip that a node is alive, at heartbeat 1, without a source. *)
Definition mkAlive (n : Node) : messageMember :=
  {| source := None; heartbeat := 1%Z; node := Some n; status := StatusAlive |}.

(** A message that was given 64 members without [addMember]. *)
Definition crowdMessage : message :=
  {| sender := Some nodeA; senderHeartbeat := 42%Z; verb := verbPing;
     members := replicate 64 (mkAlive nodeB); broadcast := None |}.

(** ** Absent sources *)

(** The node at the all-zero address of the configured width and port 0,
    and a message with that node put in for every absent source. *)
Definition zeroNode (ipLen : nat) : Node :=
  {| ip := replicate ipLen 0%Z; port := 0%Z;
     nodeHeartbeat := 0%Z; nodeStatus := StatusUnknown |}.

Definition fill_source (ipLen : nat) (x : messageMember) : messageMember :=
  match source x with
  | Some _ => x
  | None =>
      {| source := Some (zeroNode ipLen); heartbeat := heartbeat x;
         node := node x; status := status x |}
  end.

Definition fill_sources (ipLen : nat) (m : message) : message :=
  set_members m (map (fill_source ipLen) (members m)).

(** ** A header that declares members it does not carry *)

(** * Properties *)

(** ** Outcomes and slices *)

Lemma bind_Return {A B : Type} (c : outcome A) (k : A -> outcome B) (b : B) :
  bind c k = Return b -> exists a, c = Return a /\ k a = Return b.
Proof. destruct c as [a| |]; simpl; intros H; [eauto | discriminate..]. Qed.

Lemma bind_OutOfFuel {A B : Type} (c : outcome A) (k : A -> outcome B) :
  bind c k = OutOfFuel -> c = OutOfFuel \/ exists a, c = Return a /\ k a = OutOfFuel.
Proof. destruct c as [a| |]; simpl; intros H; [eauto | discriminate | auto]. Qed.

(** Splits a hypothesis [bind c k = Return b] into its two steps. *)
Ltac bind_inv_fresh H :=
  let a := fresh "a" in
  let Ha := fresh "Hstep" in
  apply bind_Return in H; destruct H as (a & Ha & H);
  try match type of a with
      | (_ * _)%type => destruct a as [? ?]
      end.

Tactic Notation "bind_inv" hyp(H) := bind_inv_fresh H.

Tactic Notation "bind_inv" hyp(H) "as" simple_intropattern(a) ident(Ha) :=
  apply bind_Return in H; destruct H as (a & Ha & H).

Lemma index_lt (s : slice) (i : nat) :
  i < len s -> exists b, index s i = Return b /\ elems s !! i = Some b.
Proof.
  intros Hi. unfold index.
  destruct (lookup_lt_is_Some_2 (elems s) i Hi) as [b ->]. eauto.
Qed.

Lemma index_ge (s : slice) (i : nat) :
  len s <= i -> index s i = Panic IndexOutOfRange.
Proof.
  intros Hi. unfold index. rewrite (proj2 (lookup_ge_None (elems s) i)); [done|].
  exact Hi.
Qed.

Lemma index_Return (s : slice) (i : nat) (b : Z) :
  index s i = Return b -> elems s !! i = Some b /\ i < len s.
Proof.
  unfold index. destruct (elems s !! i) as [x|] eqn:E; [|discriminate].
  intros [= ->]. split; [done|]. by apply lookup_lt_Some in E.
Qed.

Lemma index_not_OutOfFuel (s : slice) (i : nat) : index s i <> OutOfFuel.
Proof. unfold index. by destruct (elems s !! i). Qed.

Lemma decodeUint32_Return (s : slice) (p : nat) (v : Z) (q : nat) :
  decodeUint32 s p = Return (v, q) -> p + 4 <= len s /\ q = p + 4.
Proof.
  unfold decodeUint32. intros H.
  do 4 bind_inv H. injection H as _ <-.
  apply index_Return in Hstep2 as [_ ?]. lia.
Qed.

Lemma decodeUint32_short (s : slice) (p : nat) :
  len s < p + 4 -> decodeUint32 s p = Panic IndexOutOfRange.
Proof.
  intros Hs. unfold decodeUint32.
  destruct (Nat.lt_ge_cases p (len s)) as [H0|H0]; [|by rewrite index_ge].
  destruct (index_lt s p H0) as (b0 & -> & _); simpl.
  destruct (Nat.lt_ge_cases (p + 1) (len s)) as [H1|H1]; [|by rewrite index_ge].
  destruct (index_lt s _ H1) as (b1 & -> & _); simpl.
  destruct (Nat.lt_ge_cases (p + 2) (len s)) as [H2|H2]; [|by rewrite index_ge].
  destruct (index_lt s _ H2) as (b2 & -> & _); simpl.
  rewrite index_ge; [done | lia].
Qed.

Lemma reslice_from_le (s : slice) (lo : nat) :
  lo <= len s -> reslice_from s lo = Return (Slice (drop lo (elems s)) (spare s)).
Proof.
  intros H. unfold reslice_from.
  by rewrite (proj2 (Nat.leb_le lo (len s)) H).
Qed.

(** ** [getForwardTo] and [addMember] *)

(** C3, as the code has it: [getForwardTo] never consults the verb.  For a
    message with at least one member it returns the first member exactly
    when that member's status is [StatusForwardTo], and none otherwise; for
    a message without members it returns none; two messages with the same
    members give the same result whatever their verbs are. *)
Theorem getForwardTo_first_member (m : message) :
  (forall first rest, members m = first :: rest ->
     (getForwardTo m = Some first <-> status first = StatusForwardTo) /\
     (getForwardTo m = None <-> status first <> StatusForwardTo)) /\
  (members m = [] -> getForwardTo m = None) /\
  (forall m', members m' = members m -> getForwardTo m' = getForwardTo m).
Proof.
  unfold getForwardTo. split; [|split].
  - intros first rest ->.
    destruct (Z.eqb_spec (status first) StatusForwardTo) as [E|E].
    + split; split; intros; congruence.
    + split; split; intros; congruence.
  - by intros ->.
  - by intros m' ->.
Qed.

Lemma getForwardTo_first_member_witness :
  ((getForwardTo pingWithForwardTo = Some forwardToMember
      <-> status forwardToMember = StatusForwardTo) /\
   (getForwardTo pingWithForwardTo = None
      <-> status forwardToMember <> StatusForwardTo)) /\
  getForwardTo pingFromA = None /\
  getForwardTo fullMessage = getForwardTo pingWithForwardTo.
Proof.
  split; [|split].
  - exact (proj1 (getForwardTo_first_member pingWithForwardTo)
             forwardToMember [] eq_refl).
  - exact (proj1 (proj2 (getForwardTo_first_member pingFromA)) eq_refl).
  - apply (proj2 (proj2 (getForwardTo_first_member pingWithForwardTo))
             (set_members fullMessage [forwardToMember])).
    reflexivity.
Defined.

(** C3, as the spec states it, fails: a PING (not a PINGREQ) whose first
    member carries [StatusForwardTo] makes [getForwardTo] return that
    member. *)
Lemma getForwardTo_other_verb_counterexample :
  verb pingWithForwardTo <> verbPingRequest /\
  getForwardTo pingWithForwardTo = Some forwardToMember /\
  getForwardTo pingWithForwardTo <> None.
Proof. repeat split; discriminate. Qed.

(** C4: on a message that holds 63 members (or more) [addMember] returns the
    overflow error and leaves the message as it was; on a message that
    holds fewer it returns no error and appends exactly the new member,
    leaving every other field as it was. *)
Theorem addMember_cap (m : message) (n : option Node) (s : NodeStatus)
    (h : Z) (g : option Node) :
  (63 <= length (members m) ->
     addMember m n s h g = (m, Some ErrMemberListOverflow)) /\
  (length (members m) < 63 ->
     exists m',
       addMember m n s h g = (m', None) /\
       members m' =
         members m ++ [{| source := g; heartbeat := h; node := n; status := s |}] /\
       length (members m') = S (length (members m)) /\
       sender m' = sender m /\ senderHeartbeat m' = senderHeartbeat m /\
       verb m' = verb m /\ broadcast m' = broadcast m).
Proof.
  unfold addMember. split; intros H.
  - by rewrite (proj2 (Nat.leb_le _ _) H).
  - rewrite (proj2 (Nat.leb_gt _ _) H). eexists. split; [reflexivity|].
    simpl. rewrite length_app. simpl. repeat split; lia.
Qed.

Lemma addMember_cap_witness :
  addMember fullMessage None StatusAlive 1%Z None
    = (fullMessage, Some ErrMemberListOverflow) /\
  exists m',
    addMember pingWithForwardTo None StatusAlive 1%Z None = (m', None) /\
    length (members m') = 2.
Proof.
  split.
  - apply (proj1 (addMember_cap fullMessage None StatusAlive 1%Z None)).
    vm_compute. lia.
  - destruct (proj2 (addMember_cap pingWithForwardTo None StatusAlive 1%Z None))
      as (m' & E & _ & L & _).
    + simpl. lia.
    + exists m'. split; [exact E | exact L].
Defined.

(** ** The checksum check of [decodeMessage] *)

Section DecodeChecksum.

Variable ipLen : nat.
Variable knownNodes : list Node.

Lemma decodeBroadcast_error (s : slice) (e : error) :
  snd (decodeBroadcast ipLen knownNodes s) = Some e -> e = ErrMalformedBroadcast.
Proof.
  unfold decodeBroadcast.
  destruct (len s <? 8 + ipLen); [by intros [= <-]|].
  match goal with |- context [match ?c with _ => _ end] => destruct c as [r| |] end;
    [|by intros [= <-]..].
  destruct r as [[[[oip oport] counter] n] p].
  destruct (len s <? p + n); [by intros [= <-] | discriminate].
Qed.

Lemma decodeMessage_mismatch (sourceIP : IP) (bytes : slice) (stated : Z) (p : nat) :
  decodeUint32 bytes 0 = Return (stated, p) ->
  adler32 (drop 4 (elems bytes)) <> stated ->
  decodeMessage ipLen knownNodes sourceIP bytes
    = Return (newMessage 255%Z None 0%Z, Some (ErrChecksumFailure sourceIP)).
Proof.
  intros Hd Hne. unfold decodeMessage. rewrite Hd. simpl.
  apply decodeUint32_Return in Hd as [Hlen _].
  rewrite reslice_from_le by lia. simpl.
  by rewrite (proj2 (Z.eqb_neq _ _) Hne).
Qed.

Lemma decodeMessage_match_error (sourceIP : IP) (bytes : slice) (stated : Z)
    (p : nat) (m : message) (e : error) :
  decodeUint32 bytes 0 = Return (stated, p) ->
  adler32 (drop 4 (elems bytes)) = stated ->
  decodeMessage ipLen knownNodes sourceIP bytes = Return (m, Some e) ->
  e = ErrMalformedBroadcast.
Proof.
  intros Hd He. unfold decodeMessage. rewrite Hd. cbn [bind].
  apply decodeUint32_Return in Hd as [Hlen _].
  rewrite reslice_from_le by lia. cbn [bind elems].
  rewrite (proj2 (Z.eqb_eq _ _) He). cbn [negb].
  intros H. do 5 bind_inv H. injection H as _ ->.
  match type of Hstep3 with context [if ?c then _ else _] => destruct c end.
  - bind_inv Hstep3. injection Hstep3 as Hb.
    apply (decodeBroadcast_error a0). by rewrite Hb.
  - discriminate Hstep3.
Qed.

End DecodeChecksum.

(** ** Big-endian fields and the checksum *)

Lemma byte_of_testbit (z i : Z) :
  Z.testbit (byte_of z) i = (i <? 8)%Z && Z.testbit z i.
Proof. unfold byte_of. change 256%Z with (2 ^ 8)%Z. by apply Z.testbit_mod_pow2. Qed.

Lemma byte_of_range (z : Z) : is_byte (byte_of z).
Proof. unfold is_byte, byte_of. apply Z.mod_pos_bound. lia. Qed.

Lemma byte_of_id (z : Z) : is_byte z -> byte_of z = z.
Proof. unfold is_byte, byte_of. intros H. by apply Z.mod_small. Qed.

Lemma uint_testbit_high (n k i : Z) :
  (0 <= n < 2 ^ k)%Z -> (0 <= k <= i)%Z -> Z.testbit n i = false.
Proof.
  intros Hn Hi. rewrite <- (Z.mod_small n (2 ^ k)) by lia.
  apply Z.mod_pow2_bits_high. lia.
Qed.

(** Solves bit-level equalities between a value and its bytes: compares
    the bits position by position, range by range. *)
Ltac bits_by_range :=
  repeat first
    [ rewrite Z.lor_spec
    | rewrite Z.land_spec
    | rewrite byte_of_testbit
    | rewrite Z.shiftl_spec by lia ];
  repeat match goal with
    | |- context [(?a <? ?b)%Z] => destruct (Z.ltb_spec a b)
    end;
  repeat match goal with
    | |- context [Z.testbit ?a ?j] =>
        (rewrite (Z.testbit_neg_r a j) by lia)
    end;
  rewrite ?andb_false_l, ?andb_true_l, ?orb_false_l, ?orb_false_r;
  try lia; try reflexivity;
  try (rewrite Z.shiftr_spec by lia; f_equal; lia).

Lemma be16_value (n : Z) :
  is_uint16 n ->
  Z.lor (Z.shiftl (byte_of (Z.shiftr n 8)) 8) (byte_of n) = n.
Proof.
  intros Hn. apply Z.bits_inj'. intros i Hi.
  pose proof (uint_testbit_high n 16 i) as Hhi.
  destruct (Z.lt_ge_cases i 16) as [Hlt|Hge].
  - bits_by_range.
  - rewrite Hhi by (unfold is_uint16 in Hn; lia). bits_by_range.
Qed.

Lemma be32_value (n : Z) :
  is_uint32 n ->
  Z.lor (Z.lor (Z.lor (Z.shiftl (byte_of (Z.shiftr n 24)) 24)
                      (Z.shiftl (byte_of (Z.shiftr n 16)) 16))
               (Z.shiftl (byte_of (Z.shiftr n 8)) 8))
        (byte_of n) = n.
Proof.
  intros Hn. apply Z.bits_inj'. intros i Hi.
  pose proof (uint_testbit_high n 32 i) as Hhi.
  destruct (Z.lt_ge_cases i 32) as [Hlt|Hge].
  - bits_by_range.
  - rewrite Hhi by (unfold is_uint32 in Hn; lia). bits_by_range.
Qed.

Lemma adler32_fold_range (bs : list Z) (a b : Z) :
  (0 <= a < 65521)%Z -> (0 <= b < 65521)%Z ->
  (0 <= fst (fold_left adler32_step bs (a, b)) < 65521)%Z /\
  (0 <= snd (fold_left adler32_step bs (a, b)) < 65521)%Z.
Proof.
  revert a b. induction bs as [|x bs IH]; intros a b Ha Hb; simpl; [lia|].
  apply IH; apply Z.mod_pos_bound; lia.
Qed.

Lemma adler32_range (bs : list Z) : is_uint32 (adler32 bs).
Proof.
  unfold adler32, is_uint32.
  destruct (adler32_fold_range bs 1 0) as [Ha Hb]; [lia..|].
  set (st := fold_left adler32_step bs (1%Z, 0%Z)) in *.
  rewrite <- Z.add_nocarry_lor.
  - rewrite Z.shiftl_mul_pow2 by lia. lia.
  - apply Z.bits_inj'. intros i Hi. rewrite Z.bits_0.
    rewrite Z.land_spec, Z.shiftl_spec by lia.
    destruct (Z.lt_ge_cases i 16) as [Hlt|Hge].
    + rewrite Z.testbit_neg_r by lia. reflexivity.
    + rewrite (uint_testbit_high (fst st) 16 i) by lia. apply andb_false_r.
Qed.

(** ** Writes at the cursor

    While [encode] runs, the buffer is what has been written so far followed
    by untouched bytes, and the cursor is the length of the written part.
    Each lemma below moves one field from the untouched part to the written
    part. *)

(** Brings both sides of an equation between appended lists to the same
    right-nested form. *)
Ltac list_norm := repeat progress (rewrite <- ?app_assoc; cbn [app]).

Lemma store_at (pre post : list Z) (x v : Z) (p : nat) :
  p = length pre ->
  store (pre ++ x :: post) p v = Return ((pre ++ [v]) ++ post).
Proof.
  intros ->. unfold store. rewrite length_app. simpl.
  destruct (Nat.ltb_spec (length pre) (length pre + S (length post))); [|lia].
  f_equal. replace (length pre) with (length pre + 0) at 1 by lia.
  rewrite insert_app_r. simpl. by rewrite <- app_assoc.
Qed.

Lemma store_Return (b b' : list Z) (i : nat) (v : Z) :
  store b i v = Return b' -> i < length b /\ b' = <[i:=v]> b.
Proof.
  unfold store. destruct (Nat.ltb_spec i (length b)); [|discriminate].
  by intros [= <-].
Qed.

Lemma encodeByte_at (pre post : list Z) (x v : Z) (p : nat) :
  p = length pre ->
  encodeByte v (pre ++ x :: post) p = Return ((pre ++ [v]) ++ post, 1).
Proof. intros Hp. unfold encodeByte. by rewrite store_at. Qed.

Lemma encodeUint16_at (pre post : list Z) (x0 x1 n : Z) (p : nat) :
  p = length pre ->
  encodeUint16 n (pre ++ x0 :: x1 :: post) p = Return ((pre ++ be16 n) ++ post, 2).
Proof.
  intros Hp. unfold encodeUint16.
  rewrite store_at by done. cbn [bind].
  rewrite store_at by (rewrite length_app; simpl; lia). cbn [bind].
  by rewrite <- !app_assoc.
Qed.

Lemma encodeUint32_at (pre post : list Z) (x0 x1 x2 x3 n : Z) (p : nat) :
  p = length pre ->
  encodeUint32 n (pre ++ x0 :: x1 :: x2 :: x3 :: post) p
    = Return ((pre ++ be32 n) ++ post, 4).
Proof.
  intros Hp. unfold encodeUint32.
  rewrite store_at by done. cbn [bind].
  rewrite store_at by (rewrite length_app; simpl; lia). cbn [bind].
  rewrite store_at by (rewrite !length_app; simpl; lia). cbn [bind].
  rewrite store_at by (rewrite !length_app; simpl; lia). cbn [bind].
  by rewrite <- !app_assoc.
Qed.

Lemma writeIP_at (n : nat) (ipb pre old post : list Z) (p i : nat) :
  p + i = length pre -> length old = n -> i + n <= length ipb ->
  writeIP ipb (pre ++ old ++ post) p i n
    = Return ((pre ++ take n (drop i ipb)) ++ post).
Proof.
  revert pre old i. induction n as [|n IH]; intros pre old i Hp Hold Hipb.
  - destruct old; [|discriminate]. simpl. by rewrite app_nil_r.
  - destruct old as [|x old]; [discriminate|]. simpl in Hold.
    destruct (lookup_lt_is_Some_2 ipb i) as [b Hb]; [lia|].
    cbn [writeIP]. unfold at_index. rewrite Hb. cbn [bind].
    change ((x :: old) ++ post) with (x :: old ++ post).
    rewrite store_at by done. cbn [bind].
    rewrite IH; [|rewrite length_app; simpl; lia|lia|lia].
    rewrite (drop_S _ _ _ Hb). simpl. by rewrite <- !app_assoc.
Qed.

Lemma writeAll_at (bb pre old post : list Z) (p i : nat) :
  p + i = length pre -> length old = length bb ->
  writeAll bb (pre ++ old ++ post) p i = Return ((pre ++ bb) ++ post).
Proof.
  revert pre old i. induction bb as [|v bb IH]; intros pre old i Hp Hold.
  - destruct old; [|discriminate]. simpl. by rewrite app_nil_r.
  - destruct old as [|x old]; [discriminate|]. simpl in Hold.
    cbn [writeAll]. change ((x :: old) ++ post) with (x :: old ++ post).
    rewrite store_at by done. cbn [bind].
    rewrite IH; [|rewrite length_app; simpl; lia|lia].
    by rewrite <- !app_assoc.
Qed.

Section EncodeLayout.

Variable ipLen : nat.

Lemma slot_zeros :
  replicate (9 + ipLen + ipLen) 0%Z
    = 0%Z :: replicate ipLen 0%Z
        ++ [0; 0; 0; 0; 0; 0]%Z ++ replicate (ipLen + 2) 0%Z.
Proof.
  replace (9 + ipLen + ipLen) with (1 + (ipLen + (6 + (ipLen + 2)))) by lia.
  by rewrite !replicate_add.
Qed.

Lemma pickIP_node (ipb : IP) (n : Node) :
  encodable_node ipLen n ->
  exists ipb', pickIP ipLen ipb (Some n) = Return ipb' /\
               take ipLen ipb' = wireIP ipLen n /\ ipLen <= length ipb'.
Proof.
  unfold encodable_node, wireIP, pickIP. intros H.
  destruct (ipLen =? IPv4len); [|destruct (ipLen =? IPv6len)]; cbn [deref bind].
  - eexists. split; [done|]. split; [done|].
    rewrite length_take in H. lia.
  - eexists. split; [done|]. split; [done|].
    rewrite length_take in H. lia.
  - rewrite take_nil in H. simpl in H.
    exists ipb. rewrite <- H. simpl. repeat split. lia.
Qed.

Lemma encodeMember_at (member : messageMember) (pre post : list Z) (p : nat) :
  p = length pre ->
  encodable_member ipLen member ->
  encodeMember ipLen member (pre ++ replicate (9 + ipLen + ipLen) 0%Z ++ post) p
    = Return ((pre ++ memberWire ipLen member) ++ post, p + (9 + ipLen + ipLen)).
Proof.
  intros Hp [Hnode Hsrc]. unfold encodeMember, memberWire.
  destruct (node member) as [mn|]; [|done]. simpl in Hnode.
  destruct (pickIP_node [] mn Hnode) as (ipb & Hpick & Htake & Hlen).
  rewrite slot_zeros. cbv zeta.
  change ((0%Z :: ?l) ++ post) with (0%Z :: l ++ post).
  rewrite store_at by done. cbn [bind].
  rewrite Hpick. cbn [bind].
  rewrite <- (app_assoc (replicate ipLen 0%Z)).
  rewrite writeIP_at;
    [|rewrite length_app; simpl; lia|by rewrite length_replicate|simpl; lia].
  cbn [bind deref]. rewrite drop_0, Htake.
  assert (Hw : length (wireIP ipLen mn) = ipLen) by exact Hnode.
  cbn [app].
  rewrite encodeUint16_at by (rewrite !length_app, Hw; simpl; lia).
  cbn [bind].
  rewrite encodeUint32_at by (rewrite !length_app, Hw; simpl; lia).
  cbn [bind].
  unfold sourceWire. destruct (source member) as [sn|].
  - specialize (Hsrc sn eq_refl).
    destruct (pickIP_node ipb sn Hsrc) as (ipb' & Hpick' & Htake' & Hlen').
    rewrite Hpick'. cbn [bind].
    assert (Hw' : length (wireIP ipLen sn) = ipLen) by exact Hsrc.
    rewrite replicate_add. rewrite <- (app_assoc (replicate ipLen 0%Z)).
    rewrite writeIP_at;
      [|rewrite !length_app, Hw; simpl; lia|by rewrite length_replicate|simpl; lia].
    cbn [bind]. rewrite drop_0, Htake'.
    cbn [replicate app].
    rewrite encodeUint16_at by (rewrite !length_app, Hw, Hw'; simpl; lia).
    cbn [bind]. f_equal. f_equal; [|lia]. by list_norm.
  - f_equal. f_equal; [|lia]. by list_norm.
Qed.

Lemma memberWire_length (member : messageMember) :
  encodable_member ipLen member ->
  length (memberWire ipLen member) = 9 + ipLen + ipLen.
Proof.
  intros [Hnode Hsrc]. unfold memberWire, sourceWire.
  destruct (node member) as [mn|]; [|done]. simpl in Hnode.
  rewrite !length_app. unfold encodable_node in Hnode. rewrite Hnode.
  destruct (source member) as [sn|].
  - specialize (Hsrc sn eq_refl). unfold encodable_node in Hsrc.
    rewrite length_app, Hsrc. simpl. lia.
  - rewrite length_replicate. simpl. lia.
Qed.

Lemma membersWire_length (ms : list messageMember) :
  Forall (encodable_member ipLen) ms ->
  length (concat (map (memberWire ipLen) ms)) = length ms * (9 + ipLen + ipLen).
Proof.
  induction 1 as [|member ms Hm _ IH]; [done|].
  cbn [map concat length Nat.mul].
  by rewrite length_app, memberWire_length, IH.
Qed.

Lemma encodeMembers_at (ms : list messageMember) (pre post : list Z) (p : nat) :
  p = length pre ->
  Forall (encodable_member ipLen) ms ->
  encodeMembers ipLen ms
      (pre ++ replicate (length ms * (9 + ipLen + ipLen)) 0%Z ++ post) p
    = Return ((pre ++ concat (map (memberWire ipLen) ms)) ++ post,
              p + length ms * (9 + ipLen + ipLen)).
Proof.
  revert pre p. induction ms as [|member ms IH]; intros pre p Hp Hms.
  - simpl. rewrite app_nil_r. f_equal. f_equal. lia.
  - inversion Hms as [|? ? Hm Hrest]; subst.
    cbn [encodeMembers length Nat.mul].
    rewrite replicate_add, <- app_assoc.
    rewrite encodeMember_at by done. cbn [bind].
    rewrite IH; [|rewrite length_app, memberWire_length by done; lia|done].
    f_equal. f_equal; [|lia].
    cbn [map concat]. by list_norm.
Qed.

Lemma Broadcast_encode_wire (b : Broadcast) :
  encodable_ptr ipLen (origin b) ->
  Broadcast_encode ipLen b = Return (broadcastWire ipLen (Some b)) /\
  length (broadcastWire ipLen (Some b)) = 8 + ipLen + length (bytes b).
Proof.
  unfold Broadcast_encode, broadcastWire.
  destruct (origin b) as [o|]; [|done]. cbn [encodable_ptr]. intros Ho.
  destruct (pickIP_node [] o Ho) as (ipb & Hpick & Htake & Hlen).
  assert (Hw : length (wireIP ipLen o) = ipLen) by exact Ho.
  split.
  - cbv zeta. rewrite Hpick. cbn [bind].
    replace (8 + ipLen) with (ipLen + 8) by lia.
    rewrite replicate_add.
    pose proof (writeIP_at ipLen ipb [] (replicate ipLen 0%Z) (replicate 8 0%Z) 0 0)
      as Hip.
    cbn [app] in Hip. rewrite Hip; [|done|by rewrite length_replicate|simpl; lia].
    cbn [bind deref replicate app]. rewrite drop_0, Htake.
    rewrite encodeUint16_at by (simpl; lia). cbn [bind].
    rewrite encodeUint32_at by (rewrite !length_app, Hw; simpl; lia).
    cbn [bind].
    rewrite encodeUint16_at by (rewrite !length_app, Hw; simpl; lia).
    cbn [bind]. f_equal. by list_norm.
  - rewrite !length_app, Hw. simpl. lia.
Qed.

(** On an encodable message [encode] returns, and what it returns is the
    datagram layout of the message. *)
Lemma encode_wire (m : message) :
  encodable ipLen m -> encode ipLen m = Return (messageWire ipLen m).
Proof.
  intros (Hs & Hms & Hb). unfold encode, messageWire, bodyWire.
  destruct (sender m) as [s|]; [clear Hs|done].
  set (w := 9 + ipLen + ipLen).
  set (body := concat (map (memberWire ipLen) (members m))).
  assert (Hbuf : forall k,
    replicate (11 + length (members m) * w + k) 0%Z
      = [0; 0; 0; 0]%Z ++ 0%Z :: 0%Z :: 0%Z :: 0%Z :: 0%Z :: 0%Z :: 0%Z
          :: replicate (length (members m) * w) 0%Z ++ replicate k 0%Z).
  { intros k. rewrite <- !Nat.add_assoc, !replicate_add. reflexivity. }
  assert (Hfinish : forall written : list Z,
    (let* tail := reslice_from (full ([0; 0; 0; 0]%Z ++ written)) 4 in
     let checksum := adler32 (elems tail) in
     let* '(bytes, _) := encodeUint32 checksum ([0; 0; 0; 0]%Z ++ written) 0 in
     Return bytes) = Return (be32 (adler32 written) ++ written)).
  { intros written. unfold reslice_from, full, len.
    cbn [elems length app Nat.leb bind drop].
    pose proof (encodeUint32_at [] written 0 0 0 0 (adler32 written) 0 eq_refl)
      as Hsum.
    cbn [app] in Hsum. rewrite drop_0, Hsum. reflexivity. }
  destruct (broadcast m) as [b|] eqn:Eb.
  - simpl in Hb. destruct (Broadcast_encode_wire b Hb) as [Henc Hlen].
    rewrite Hbuf. cbv zeta.
    rewrite encodeByte_at by done. cbn [bind deref].
    rewrite encodeUint16_at by done. cbn [bind].
    rewrite encodeUint32_at by done. cbn [bind].
    rewrite encodeMembers_at by done. cbn [bind].
    rewrite Henc. cbn [bind].
    rewrite <- (app_nil_r (replicate _ 0%Z)).
    rewrite writeAll_at;
      [|rewrite !length_app, membersWire_length by done; simpl; fold w; lia
       |by rewrite length_replicate, Hlen].
    cbn [bind]. rewrite app_nil_r.
    rewrite <- !app_assoc. rewrite Hfinish. f_equal; by list_norm.
  - replace (11 + length (members m) * w)
      with (11 + length (members m) * w + 0) by lia.
    rewrite Hbuf. cbv zeta.
    rewrite encodeByte_at by done. cbn [bind deref].
    rewrite encodeUint16_at by done. cbn [bind].
    rewrite encodeUint32_at by done. cbn [bind].
    rewrite encodeMembers_at by done. cbn [bind replicate].
    rewrite <- !app_assoc. rewrite Hfinish. f_equal; by list_norm.
Qed.

(** Conversely, [encode] returns on encodable messages only: on any other
    message it follows a nil pointer or indexes past an address. *)
Lemma writeIP_Return (n : nat) (ipb b b' : list Z) (p i : nat) :
  writeIP ipb b p i n = Return b' -> n <= length ipb - i.
Proof.
  revert b i. induction n as [|n IH]; intros b i H; [lia|].
  cbn [writeIP] in H. do 2 bind_inv H.
  apply IH in H. unfold at_index in Hstep.
  destruct (ipb !! i) eqn:E; [|discriminate].
  apply lookup_lt_Some in E. lia.
Qed.

Lemma pickIP_Return (ipb ipb' : IP) (x : Node) :
  pickIP ipLen ipb (Some x) = Return ipb' -> ipLen <= length ipb' ->
  ((ipLen =? IPv4len) = false -> (ipLen =? IPv6len) = false -> ipb = []) ->
  encodable_node ipLen x /\
  ((ipLen =? IPv4len) = false -> (ipLen =? IPv6len) = false -> ipb' = []).
Proof.
  unfold pickIP, encodable_node, wireIP. intros H Hlen Hfall.
  destruct (ipLen =? IPv4len); [|destruct (ipLen =? IPv6len)]; cbn [deref bind] in H.
  - injection H as <-. split; [|done]. rewrite length_take. lia.
  - injection H as <-. split; [|done]. rewrite length_take. lia.
  - injection H as <-. rewrite (Hfall eq_refl eq_refl) in *.
    split; [|done]. rewrite length_take. simpl in *. lia.
Qed.

Lemma encodeMember_Return (member : messageMember) (b b' : list Z) (p p' : nat) :
  encodeMember ipLen member b p = Return (b', p') ->
  encodable_member ipLen member.
Proof.
  unfold encodeMember. cbv zeta. intros H.
  bind_inv H. bind_inv H. rename a0 into ipb, Hstep0 into Hpick.
  bind_inv H. apply writeIP_Return in Hstep0.
  bind_inv H. destruct (node member) as [mn|] eqn:En; [|discriminate].
  injection Hstep1 as <-.
  destruct (pickIP_Return _ _ _ Hpick) as [Hx Hfall]; [lia|done|].
  split; [by rewrite En|].
  intros sn Es. rewrite Es in H. do 2 bind_inv H.
  bind_inv H as ipb' Hpick'.
  bind_inv H as bytes' Hwrite. apply writeIP_Return in Hwrite.
  destruct (pickIP_Return _ _ _ Hpick') as [Hy _]; [lia|done|exact Hy].
Qed.

Lemma encodeMembers_Return (ms : list messageMember) (b b' : list Z) (p p' : nat) :
  encodeMembers ipLen ms b p = Return (b', p') ->
  Forall (encodable_member ipLen) ms.
Proof.
  revert b p. induction ms as [|member ms IH]; intros b p H; [constructor|].
  cbn [encodeMembers] in H. bind_inv H. constructor.
  - by eapply encodeMember_Return.
  - by eapply IH.
Qed.

Lemma Broadcast_encode_Return (b : Broadcast) (bb : list Z) :
  Broadcast_encode ipLen b = Return bb -> encodable_ptr ipLen (origin b).
Proof.
  unfold Broadcast_encode. cbv zeta. intros H.
  bind_inv H. rename Hstep into Hpick.
  bind_inv H. apply writeIP_Return in Hstep.
  bind_inv H. destruct (origin b) as [o|]; [|discriminate].
  destruct (pickIP_Return _ _ _ Hpick) as [Hx _]; [lia|done|exact Hx].
Qed.

Lemma encode_Return (m : message) (bs : list Z) :
  encode ipLen m = Return bs -> encodable ipLen m.
Proof.
  unfold encode. cbv zeta. intros H.
  bind_inv H. bind_inv H as s Hs.
  destruct (sender m) as [s'|] eqn:Es; [|discriminate].
  do 2 bind_inv H. bind_inv H as [bytes1 p1] Hms.
  apply encodeMembers_Return in Hms.
  bind_inv H as bytes2 Hb. unfold encodable. rewrite Es.
  split; [done|]. split; [exact Hms|].
  destruct (broadcast m) as [b|]; [|done].
  bind_inv Hb as bb Hbb. by eapply Broadcast_encode_Return.
Qed.

(** [encode] returns exactly on the encodable messages, and then returns
    the datagram layout. *)
Lemma encode_Return_wire (m : message) (bs : list Z) :
  encode ipLen m = Return bs <-> encodable ipLen m /\ bs = messageWire ipLen m.
Proof.
  split.
  - intros H. pose proof (encode_Return m bs H) as He. split; [done|].
    rewrite (encode_wire m He) in H. by injection H.
  - intros [He ->]. by apply encode_wire.
Qed.

End EncodeLayout.

(** ** [decodeMembers]: termination and the number of members *)

Lemma bind_terminates {A B : Type} (c : outcome A) (k : A -> outcome B) :
  c <> OutOfFuel -> (forall a, k a <> OutOfFuel) -> bind c k <> OutOfFuel.
Proof. intros Hc Hk. destruct c as [a| |]; simpl; [apply Hk | discriminate | done]. Qed.

Lemma reslice_terminates (s : slice) (lo hi : nat) : reslice s lo hi <> OutOfFuel.
Proof. unfold reslice. by destruct (_ && _). Qed.

Lemma decodeUint16_terminates (s : slice) (p : nat) : decodeUint16 s p <> OutOfFuel.
Proof.
  unfold decodeUint16.
  repeat (apply bind_terminates; [apply index_not_OutOfFuel | intros ?]).
  discriminate.
Qed.

Lemma decodeUint32_terminates (s : slice) (p : nat) : decodeUint32 s p <> OutOfFuel.
Proof.
  unfold decodeUint32.
  repeat (apply bind_terminates; [apply index_not_OutOfFuel | intros ?]).
  discriminate.
Qed.

Lemma decodeUint16_Return (s : slice) (p : nat) (v : Z) (q : nat) :
  decodeUint16 s p = Return (v, q) -> p + 2 <= len s /\ q = p + 2.
Proof.
  unfold decodeUint16. intros H.
  do 2 bind_inv H. injection H as _ <-.
  apply index_Return in Hstep0 as [_ ?]. lia.
Qed.

Lemma decodeUint16_total (s : slice) (p : nat) :
  p + 2 <= len s -> exists v, decodeUint16 s p = Return (v, p + 2).
Proof.
  intros Hp. unfold decodeUint16.
  destruct (index_lt s p) as (b0 & -> & _); [lia|].
  destruct (index_lt s (p + 1)) as (b1 & -> & _); [lia|].
  cbn [bind]. eauto.
Qed.

Lemma decodeUint32_total (s : slice) (p : nat) :
  p + 4 <= len s -> exists v, decodeUint32 s p = Return (v, p + 4).
Proof.
  intros Hp. unfold decodeUint32.
  destruct (index_lt s p) as (b0 & -> & _); [lia|].
  destruct (index_lt s (p + 1)) as (b1 & -> & _); [lia|].
  destruct (index_lt s (p + 2)) as (b2 & -> & _); [lia|].
  destruct (index_lt s (p + 3)) as (b3 & -> & _); [lia|].
  cbn [bind]. eauto.
Qed.

Section DecodeMembers.

Variable ipLen : nat.
Variable knownNodes : list Node.

Lemma readIP_terminates (s : slice) (p : nat) : readIP ipLen s p <> OutOfFuel.
Proof.
  unfold readIP. destruct (ipLen =? IPv6len).
  - apply bind_terminates; [apply reslice_terminates | discriminate].
  - repeat (apply bind_terminates; [apply index_not_OutOfFuel | intros ?]).
    discriminate.
Qed.

Lemma readIP_total (s : slice) (p : nat) :
  ipLen = 4 \/ ipLen = 16 -> p + ipLen <= len s ->
  exists a, readIP ipLen s p = Return a /\ length a = 16.
Proof.
  intros Hip Hp. unfold readIP. destruct Hip as [-> | ->]; cbn [Nat.eqb IPv6len].
  - destruct (index_lt s (p + 0)) as (b0 & -> & _); [lia|].
    destruct (index_lt s (p + 1)) as (b1 & -> & _); [lia|].
    destruct (index_lt s (p + 2)) as (b2 & -> & _); [lia|].
    destruct (index_lt s (p + 3)) as (b3 & -> & _); [lia|].
    cbn [bind]. eauto.
  - unfold reslice, cap. fold (len s).
    rewrite (proj2 (Nat.leb_le p (p + 16))) by lia.
    rewrite (proj2 (Nat.leb_le (p + 16) _)) by lia.
    cbn [andb bind elems]. eexists. split; [reflexivity|].
    unfold copy. rewrite length_app, length_take, length_drop, !length_take,
      length_drop, length_app, length_replicate.
    unfold len in Hp. unfold IPv6len. lia.
Qed.

Lemma decodeMember_terminates (s : slice) (p : nat) :
  decodeMember ipLen knownNodes s p <> OutOfFuel.
Proof.
  unfold decodeMember. cbv zeta.
  apply bind_terminates; [apply index_not_OutOfFuel | intros mstatus].
  apply bind_terminates; [apply readIP_terminates | intros mip].
  apply bind_terminates; [apply decodeUint16_terminates | intros [mport p1]].
  apply bind_terminates; [apply decodeUint32_terminates | intros [mcode p2]].
  apply bind_terminates; [apply readIP_terminates | intros sip].
  apply bind_terminates; [apply decodeUint16_terminates | intros [sport p3]].
  discriminate.
Qed.

(** Each iteration moves the cursor by the member width. *)
Lemma decodeMember_cursor (s : slice) (p p' : nat) (member : messageMember) :
  decodeMember ipLen knownNodes s p = Return (member, p') ->
  p' = p + (9 + ipLen + ipLen) /\ elems s !! p = Some (status member).
Proof.
  unfold decodeMember. cbv zeta. intros H.
  bind_inv H as mstatus Hst. apply index_Return in Hst as [Hst _].
  bind_inv H as mip Hmip.
  bind_inv H as [mport p1] Hmport. apply decodeUint16_Return in Hmport as [_ ->].
  bind_inv H as [mcode p2] Hmcode. apply decodeUint32_Return in Hmcode as [_ ->].
  bind_inv H as sip Hsip.
  bind_inv H as [sport p3] Hsport. apply decodeUint16_Return in Hsport as [_ ->].
  injection H as <- <-. split; [lia | exact Hst].
Qed.

Lemma decodeMember_total (s : slice) (p : nat) :
  ipLen = 4 \/ ipLen = 16 -> p + (9 + ipLen + ipLen) <= len s ->
  exists member,
    decodeMember ipLen knownNodes s p = Return (member, p + (9 + ipLen + ipLen)) /\
    elems s !! p = Some (status member) /\
    node member <> None /\ source member <> None.
Proof.
  intros Hip Hp. unfold decodeMember. cbv zeta.
  destruct (index_lt s p) as (mstatus & -> & Hst); [lia|]. cbn [bind].
  destruct (readIP_total s (p + 1) Hip) as (mip & -> & Hmip); [lia|]. cbn [bind].
  destruct (decodeUint16_total s (p + 1 + ipLen)) as (mport & ->); [lia|].
  cbn [bind].
  destruct (decodeUint32_total s (p + 1 + ipLen + 2)) as (mcode & ->); [lia|].
  cbn [bind].
  destruct (readIP_total s (p + 1 + ipLen + 2 + 4) Hip) as (sip & -> & Hsip); [lia|].
  cbn [bind].
  destruct (decodeUint16_total s (p + 1 + ipLen + 2 + 4 + ipLen)) as (sport & ->);
    [lia|].
  cbn [bind]. rewrite Hmip, Hsip. cbn [Nat.ltb Nat.leb].
  eexists. split; [f_equal; f_equal; lia|]. cbn [status node source].
  split; [exact Hst|].
  unfold lookupOrCreate, CreateNodeByIP.
  split; [destruct (getByIP knownNodes mip mport) | destruct (getByIP knownNodes sip sport)];
    discriminate.
Qed.

Lemma decodeMembers_loop_terminates (fuel : nat) (s : slice) (p : nat)
    (acc : list messageMember) :
  len s - p <= fuel -> decodeMembers_loop ipLen knownNodes fuel s p acc <> OutOfFuel.
Proof.
  revert p acc. induction fuel as [|fuel IH]; intros p acc Hfuel; cbn [decodeMembers_loop].
  - destruct (Nat.ltb_spec p (len s)); [lia | discriminate].
  - destruct (Nat.ltb_spec p (len s)) as [Hlt|Hge]; [|discriminate].
    intros H. apply bind_OutOfFuel in H as [H | ([member p'] & Hm & H)].
    + by apply decodeMember_terminates in H.
    + apply decodeMember_cursor in Hm as [-> _].
      revert H. apply IH. lia.
Qed.

(** The model of the loop never runs short of iterations. *)
Lemma decodeMembers_fuel_enough (memberCount : nat) (s : slice) :
  decodeMembers ipLen knownNodes memberCount s <> OutOfFuel.
Proof. unfold decodeMembers. apply decodeMembers_loop_terminates. lia. Qed.

Lemma decodeMembers_loop_count (n fuel : nat) (s : slice) (p : nat)
    (acc : list messageMember) :
  ipLen = 4 \/ ipLen = 16 ->
  p + n * (9 + ipLen + ipLen) = len s -> n <= fuel ->
  exists ms,
    decodeMembers_loop ipLen knownNodes fuel s p acc = Return (acc ++ ms) /\
    length ms = n.
Proof.
  intros Hip. revert fuel p acc.
  induction n as [|n IH]; intros fuel p acc Hlen Hfuel.
  - exists []. rewrite app_nil_r. split; [|done].
    destruct fuel; cbn [decodeMembers_loop];
      destruct (Nat.ltb_spec p (len s)); done || lia.
  - destruct fuel as [|fuel]; [lia|]. cbn [decodeMembers_loop].
    destruct (Nat.ltb_spec p (len s)); [|lia].
    destruct (decodeMember_total s p Hip) as (member & -> & _); [lia|].
    cbn [bind].
    destruct (IH fuel (p + (9 + ipLen + ipLen)) (acc ++ [member]))
      as (ms & -> & Hms); [lia..|].
    exists (member :: ms). rewrite <- app_assoc. split; [done|].
    simpl. lia.
Qed.

End DecodeMembers.

Lemma decodeMembers_count_of_length (ipLen : nat) (knownNodes : list Node)
    (memberCount : nat) (s : slice) (k : nat) :
  ipLen = 4 \/ ipLen = 16 ->
  len s = k * (9 + ipLen + ipLen) ->
  exists ms,
    decodeMembers ipLen knownNodes memberCount s = Return ms /\ length ms = k.
Proof.
  intros Hip Hlen. unfold decodeMembers.
  destruct (decodeMembers_loop_count ipLen knownNodes k (len s) s 0 [] Hip)
    as (ms & Hms & Hk); [lia|nia|].
  exists ms. simpl in Hms. by split.
Qed.

(** C9: [decodeMembers] does not use its count argument.  On a slice whose
    length is [k] times the member width it returns exactly [k] members,
    whatever count it is given, whatever the directory holds and whatever
    capacity the slice has beyond its length. *)
Theorem decodeMembers_count_from_length (ipLen : nat) (knownNodes : list Node)
    (memberCount : nat) (s : slice) (k : nat) :
  ipLen = 4 \/ ipLen = 16 ->
  len s = k * (9 + 2 * ipLen) ->
  exists ms,
    decodeMembers ipLen knownNodes memberCount s = Return ms /\
    length ms = k /\
    length ms = len s / (9 + 2 * ipLen) /\
    forall otherCount,
      decodeMembers ipLen knownNodes otherCount s = Return ms.
Proof.
  intros Hip Hlen.
  destruct (decodeMembers_count_of_length ipLen knownNodes memberCount s k Hip)
    as (ms & Hms & Hk); [lia|].
  exists ms. split; [exact Hms|]. split; [exact Hk|].
  split; [|done].
  rewrite Hk, Hlen. symmetry. apply Nat.div_mul. lia.
Qed.

(** ** The header that [decodeMessage] reads *)

Lemma reslice_Return (s t : slice) (lo hi : nat) :
  reslice s lo hi = Return t ->
  lo <= hi /\ hi <= cap s /\ len t = hi - lo /\
  elems t = take (hi - lo) (drop lo (elems s ++ spare s)).
Proof.
  unfold reslice.
  destruct (Nat.leb_spec lo hi); [|discriminate].
  destruct (Nat.leb_spec hi (cap s)); [|discriminate].
  cbn [andb]. intros [= <-]. unfold len, cap in *. cbn [elems].
  rewrite length_take, length_drop, length_app. repeat split; lia.
Qed.

Section DecodeHeader.

Variable ipLen : nat.
Variable knownNodes : list Node.

(** What a run of [decodeMessage] that passes the checksum check has read. *)
Lemma decodeMessage_Return_good (sourceIP : IP) (bytes : slice) (m : message)
    (err : option error) :
  decodeMessage ipLen knownNodes sourceIP bytes = Return (m, err) ->
  err <> Some (ErrChecksumFailure sourceIP) ->
  exists v senderPort hb,
    index bytes 4 = Return v /\
    decodeUint16 bytes 5 = Return (senderPort, 7) /\
    decodeUint32 bytes 7 = Return (hb, 11) /\
    verb m = unpackVerb v /\
    sender m = lookupOrCreate knownNodes sourceIP senderPort /\
    senderHeartbeat m = hb /\
    if 11 <? len bytes then
      exists s,
        reslice bytes 11 (11 + unpackCount v * (9 + ipLen + ipLen)) = Return s /\
        decodeMembers ipLen knownNodes (unpackCount v) s = Return (members m)
    else members m = [].
Proof.
  unfold decodeMessage. cbv zeta. intros H Herr.
  bind_inv H as [stated p0] Hsum.
  pose proof (decodeUint32_Return _ _ _ _ Hsum) as [_ ->].
  bind_inv H as tail Htail.
  destruct (negb _); [injection H as _ <-; by destruct Herr|].
  bind_inv H as [v p1] Hv. unfold decodeByte in Hv.
  bind_inv Hv as v' Hv'. injection Hv as -> <-.
  bind_inv H as [senderPort p2] Hport.
  pose proof (decodeUint16_Return _ _ _ _ Hport) as [_ ->].
  bind_inv H as [hb p3] Hhb.
  pose proof (decodeUint32_Return _ _ _ _ Hhb) as [_ ->].
  bind_inv H as m1 Hm1. bind_inv H as [b e] Hb. injection H as <- _.
  exists v, senderPort, hb. cbn [Nat.add] in *.
  do 3 (split; [done|]).
  cbn [addBroadcast verb sender senderHeartbeat members].
  destruct (11 <? len bytes).
  - bind_inv Hm1 as s Hs. bind_inv Hm1 as ms Hms. injection Hm1 as <-.
    cbn [set_members newMessage verb sender senderHeartbeat members].
    do 3 (split; [done|]). by exists s.
  - by injection Hm1 as <-.
Qed.


End DecodeHeader.

(** ** The checksum *)




(** C10: when the stated checksum differs from the computed one,
    [decodeMessage] returns the checksum error together with
    [newMessage(255, nil, 0)]: verb 255, which is none of the four verbs, no
    sender, heartbeat 0, no members and no broadcast. *)
Theorem decodeMessage_checksum_failure_message (ipLen : nat)
    (knownNodes : list Node) (sourceIP : IP) (bytes : slice) (stated : Z) (p : nat) :
  decodeUint32 bytes 0 = Return (stated, p) ->
  stated <> adler32 (drop 4 (elems bytes)) ->
  exists r,
    decodeMessage ipLen knownNodes sourceIP bytes
      = Return (r, Some (ErrChecksumFailure sourceIP)) /\
    verb r = 255%Z /\ ~ defined_verb (verb r) /\
    sender r = None /\ senderHeartbeat r = 0%Z /\
    members r = [] /\ broadcast r = None.
Proof.
  intros Hd Hne. eexists. split.
  - eapply decodeMessage_mismatch; [exact Hd | congruence].
  - cbn. unfold defined_verb. repeat split. lia.
Qed.

Lemma decodeMessage_checksum_failure_message_witness :
  exists r,
    decodeMessage 4 [] (ip nodeA) (full [0; 0; 0; 0; 9]%Z)
      = Return (r, Some (ErrChecksumFailure (ip nodeA))) /\
    verb r = 255%Z /\ ~ defined_verb (verb r) /\
    sender r = None /\ senderHeartbeat r = 0%Z /\
    members r = [] /\ broadcast r = None.
Proof.
  apply (decodeMessage_checksum_failure_message 4 [] (ip nodeA)
           (full [0; 0; 0; 0; 9]%Z) 0%Z 4).
  - reflexivity.
  - vm_compute. discriminate.
Defined.

(** ** The packed byte *)

Lemma packVerb_small (n : nat) (v : Z) :
  n <= 63 -> defined_verb v ->
  packVerb n v = (4 * Z.of_nat n + v)%Z /\
  packVerb n v = Z.lor (Z.shiftl (Z.of_nat n) 2) v.
Proof.
  intros Hn Hv. unfold defined_verb in Hv. unfold packVerb.
  rewrite (byte_of_id (Z.of_nat n)) by (unfold is_byte; lia).
  rewrite Z.shiftl_mul_pow2 by lia. change (2 ^ 2)%Z with 4%Z.
  rewrite (byte_of_id (Z.of_nat n * 4)) by (unfold is_byte; lia).
  rewrite (byte_of_id v) by (unfold is_byte; lia).
  split; [|reflexivity].
  rewrite <- Z.add_nocarry_lor; [lia|].
  apply Z.bits_inj'. intros i Hi. rewrite Z.bits_0, Z.land_spec.
  destruct (Z.lt_ge_cases i 2) as [Hlt|Hge].
  - replace (Z.of_nat n * 4)%Z with (Z.shiftl (Z.of_nat n) 2)
      by (rewrite Z.shiftl_mul_pow2 by lia; reflexivity).
    rewrite Z.shiftl_spec by lia. by rewrite Z.testbit_neg_r by lia.
  - rewrite (uint_testbit_high v 2 i) by lia. apply andb_false_r.
Qed.

Lemma unpack_packVerb (n : nat) (v : Z) :
  n <= 63 -> defined_verb v ->
  unpackVerb (packVerb n v) = v /\ unpackCount (packVerb n v) = n.
Proof.
  intros Hn Hv. destruct (packVerb_small n v Hn Hv) as [-> _].
  unfold defined_verb in Hv. unfold unpackVerb, unpackCount. split.
  - change 3%Z with (Z.ones 2). rewrite Z.land_ones by lia.
    change (2 ^ 2)%Z with 4%Z.
    rewrite Z.add_comm, Z.mul_comm, Z.mod_add by lia. apply Z.mod_small. lia.
  - rewrite Z.shiftr_div_pow2 by lia. change (2 ^ 2)%Z with 4%Z.
    rewrite Z.add_comm, Z.mul_comm, Z.div_add by lia.
    rewrite Z.div_small by lia. simpl. apply Nat2Z.id.
Qed.

(** ** The size of a datagram and its member slots *)

Lemma concat_slot (w : nat) (chunks : list (list Z)) (i : nat) (c rest : list Z) :
  Forall (fun x => length x = w) chunks ->
  chunks !! i = Some c ->
  take w (drop (i * w) (concat chunks ++ rest)) = c.
Proof.
  intros Hw. revert i. induction Hw as [|x chunks Hx _ IH]; intros i Hi; [done|].
  destruct i as [|i]; cbn [concat Nat.mul] in *.
  - injection Hi as ->. rewrite drop_0, <- app_assoc. by apply take_app_length'.
  - rewrite <- app_assoc, drop_app_add' by done. by apply IH.
Qed.

Lemma memberSlot_wire (ipLen : nat) (m : message) (i : nat) (member : messageMember) :
  encodable ipLen m ->
  members m !! i = Some member ->
  memberSlot ipLen (messageWire ipLen m) i = memberWire ipLen member.
Proof.
  intros (Hs & Hms & _) Hi. unfold memberSlot, messageWire, bodyWire.
  destruct (sender m) as [s|]; [|done].
  change (11 + i * (9 + ipLen + ipLen)) with (length (be32 0) + (7 + i * (9 + ipLen + ipLen))).
  rewrite drop_app_add' by done.
  rewrite (app_assoc (be16 _)), (app_assoc [_]).
  rewrite (drop_app_add' _ _ 7) by done.
  apply concat_slot.
  - apply Forall_map. eapply Forall_impl; [exact Hms|].
    intros x Hx. by apply memberWire_length.
  - by rewrite list_lookup_fmap, Hi.
Qed.

Lemma encode_size_and_slots_aux (ipLen : nat) (m : message) (bs : list Z)
    (i : nat) (member : messageMember) :
  encode ipLen m = Return bs ->
  members m !! i = Some member ->
  memberSlot ipLen bs i = memberWire ipLen member /\
  length (memberSlot ipLen bs i) = 9 + ipLen + ipLen.
Proof.
  intros H Hi. apply encode_Return_wire in H as [He ->].
  rewrite (memberSlot_wire ipLen m i member He Hi). split; [done|].
  destruct He as (_ & Hms & _). rewrite Forall_forall in Hms.
  apply memberWire_length, Hms. by eapply list_elem_of_lookup_2.
Qed.

(** C7: the datagram [encode] returns for a message with [n] members is
    [11 + n * (9 + 2 * ipLen)] bytes long, plus [8 + ipLen + len(payload)]
    when the message has a broadcast.  The slot of each member has the same
    width whether the member names a source or not, and the last
    [ipLen + 2] bytes of the slot of a member without a source are zero. *)
Theorem encode_size_and_slots (ipLen : nat) (m : message) (bs : list Z) :
  encode ipLen m = Return bs ->
  length bs =
    11 + length (members m) * (9 + 2 * ipLen)
       + match broadcast m with
         | Some b => 8 + ipLen + length (bytes b)
         | None => 0
         end /\
  forall i member,
    members m !! i = Some member ->
    memberSlot ipLen bs i = memberWire ipLen member /\
    length (memberSlot ipLen bs i) = 9 + 2 * ipLen /\
    (source member = None ->
     drop (7 + ipLen) (memberSlot ipLen bs i) = replicate (ipLen + 2) 0%Z).
Proof.
  intros H. apply encode_Return_wire in H as [He ->].
  pose proof He as (Hs & Hms & Hb). split.
  - unfold messageWire, bodyWire. destruct (sender m) as [s|]; [|done].
    rewrite !length_app, membersWire_length by done.
    replace (9 + 2 * ipLen) with (9 + ipLen + ipLen) by lia.
    destruct (broadcast m) as [b|].
    + destruct (Broadcast_encode_wire ipLen b Hb) as [_ ->]. simpl. lia.
    + simpl. lia.
  - intros i member Hi. rewrite (memberSlot_wire ipLen m i member He Hi).
    assert (Hm : encodable_member ipLen member).
    { rewrite Forall_forall in Hms. apply Hms.
      by eapply list_elem_of_lookup_2. }
    split; [done|]. split; [rewrite memberWire_length by done; lia|].
    intros Hsrc. destruct Hm as [Hnode _]. unfold memberWire, sourceWire.
    rewrite Hsrc. destruct (node member) as [mn|]; [|done].
    change ([?a] ++ wireIP ipLen mn ++ be16 ?b ++ be32 ?c ++ ?rest)
      with (a :: wireIP ipLen mn ++ (be16 b ++ be32 c) ++ rest).
    replace (7 + ipLen) with (S (ipLen + 6)) by lia. cbn [drop].
    rewrite drop_app_add' by (symmetry; exact Hnode).
    reflexivity.
Qed.

Lemma encode_size_and_slots_witness :
  length gossipDatagram = 11 + 1 * (9 + 2 * 4) + 0 /\
  length (memberSlot 4 gossipDatagram 0) = 9 + 2 * 4 /\
  drop (7 + 4) (memberSlot 4 gossipDatagram 0) = replicate (4 + 2) 0%Z.
Proof.
  destruct (encode_size_and_slots 4 gossipWithoutSource gossipDatagram)
    as [Hlen Hslot]; [reflexivity|].
  split; [exact Hlen|].
  destruct (Hslot 0 {| source := None; heartbeat := 7%Z;
                       node := Some nodeB; status := StatusAlive |})
    as (_ & Hwidth & Hzero); [reflexivity|].
  split; [exact Hwidth|]. apply Hzero. reflexivity.
Defined.

(** ** The status byte *)

Lemma decodeMembers_loop_status (ipLen : nat) (knownNodes : list Node)
    (fuel : nat) (s : slice) (p : nat) (acc res : list messageMember) :
  decodeMembers_loop ipLen knownNodes fuel s p acc = Return res ->
  exists ms,
    res = acc ++ ms /\
    forall i member,
      ms !! i = Some member ->
      elems s !! (p + i * (9 + ipLen + ipLen)) = Some (status member).
Proof.
  revert p acc. induction fuel as [|fuel IH]; intros p acc H;
    cbn [decodeMembers_loop] in H; destruct (p <? len s).
  - discriminate.
  - injection H as <-. exists []. by rewrite app_nil_r.
  - bind_inv H as [member p'] Hm.
    apply decodeMember_cursor in Hm as [-> Hst].
    apply IH in H as (ms & -> & Hms).
    exists (member :: ms). rewrite <- app_assoc. split; [done|].
    intros [|i] x Hx; cbn in Hx.
    + injection Hx as <-. by rewrite Nat.add_0_r.
    + apply Hms in Hx. rewrite <- Hx. f_equal. lia.
  - injection H as <-. exists []. by rewrite app_nil_r.
Qed.

(** C8, as the code has it: the decoder takes the status byte of a slot as
    the status, whatever its value, and has no error to report for it.
    Every member [decodeMembers] returns has the byte at the start of its
    slot as its status; a slot that starts with any byte [b] at all decodes
    to a member of status [b]; and [encode] writes [byte(status)], which is
    the status itself for a status in the range of a byte. *)
Theorem status_byte_unchecked (ipLen : nat) (knownNodes : list Node) :
  (forall memberCount s ms i member,
     decodeMembers ipLen knownNodes memberCount s = Return ms ->
     ms !! i = Some member ->
     elems s !! (i * (9 + 2 * ipLen)) = Some (status member)) /\
  (forall memberCount b rest spare0,
     ipLen = 4 \/ ipLen = 16 ->
     length rest = 8 + 2 * ipLen ->
     exists member,
       decodeMembers ipLen knownNodes memberCount (Slice (b :: rest) spare0)
         = Return [member] /\
       status member = b) /\
  (forall m bs i member,
     encode ipLen m = Return bs ->
     members m !! i = Some member ->
     bs !! (11 + i * (9 + 2 * ipLen)) = Some (byte_of (status member)) /\
     (is_byte (status member) -> byte_of (status member) = status member)).
Proof.
  split; [|split].
  - intros memberCount s ms i member H Hi. unfold decodeMembers in H.
    apply decodeMembers_loop_status in H as (ms' & -> & Hms).
    replace (9 + 2 * ipLen) with (9 + ipLen + ipLen) by lia.
    by apply (Hms i member).
  - intros memberCount b rest spare0 Hip Hrest.
    destruct (decodeMembers_count_of_length ipLen knownNodes memberCount
                (Slice (b :: rest) spare0) 1 Hip) as (ms & Hms & Hone).
    { unfold len. cbn [elems length]. lia. }
    destruct ms as [|member [|? ?]]; [discriminate| |discriminate].
    exists member. split; [exact Hms|].
    unfold decodeMembers in Hms.
    apply decodeMembers_loop_status in Hms as (ms' & Hres & Hst).
    cbn [app] in Hres. subst ms'.
    specialize (Hst 0 member eq_refl). cbn in Hst. by injection Hst.
  - intros m bs i member H Hi.
    destruct (encode_size_and_slots_aux ipLen m bs i member H Hi) as [Hslot Hwidth].
    split; [|apply byte_of_id].
    assert (Hhead : memberSlot ipLen bs i !! 0 = Some (byte_of (status member))).
    { rewrite Hslot. unfold memberWire.
      apply encode_Return_wire in H as [(_ & Hms & _) _].
      rewrite Forall_forall in Hms.
      destruct (Hms member) as [Hnode _]; [by eapply list_elem_of_lookup_2|].
      by destruct (node member). }
    unfold memberSlot in Hhead. rewrite lookup_take_lt in Hhead by lia.
    rewrite lookup_drop, Nat.add_0_r in Hhead.
    by replace (9 + 2 * ipLen) with (9 + ipLen + ipLen) by lia.
Qed.

Lemma status_byte_unchecked_witness :
  (elems (full slotWithStatus200) !! (0 * (9 + 2 * 4)) = Some 200%Z) /\
  (exists member,
     decodeMembers 4 [] 0 (Slice (200%Z :: replicate 16 0%Z) []) = Return [member] /\
     status member = 200%Z) /\
  (gossipDatagram !! (11 + 0 * (9 + 2 * 4)) = Some (byte_of StatusAlive) /\
   (is_byte StatusAlive -> byte_of StatusAlive = StatusAlive)).
Proof.
  destruct (status_byte_unchecked 4 []) as (Hdec & Hany & Henc).
  split; [|split].
  - apply (Hdec 1 (full slotWithStatus200)
             [{| source := Some (transient (IPv4 10 0 0 1) 7946%Z);
                 heartbeat := 7%Z;
                 node := Some (transient (IPv4 10 0 0 2) 9999%Z);
                 status := 200%Z |}] 0
             {| source := Some (transient (IPv4 10 0 0 1) 7946%Z);
                heartbeat := 7%Z;
                node := Some (transient (IPv4 10 0 0 2) 9999%Z);
                status := 200%Z |}); reflexivity.
  - apply (Hany 0 200%Z (replicate 16 0%Z) []); [left|]; reflexivity.
  - apply (Henc gossipWithoutSource gossipDatagram 0
             {| source := None; heartbeat := 7%Z;
                node := Some nodeB; status := StatusAlive |}); reflexivity.
Defined.

(** C8, as the spec states it, fails: in an IPv4 process a slot whose status
    byte is 200, outside the ordinals 0 to 4, decodes without any error to
    a member whose status is 200. *)
Lemma status_byte_unchecked_counterexample :
  ~ known_status 200%Z /\
  decodeMembers 4 [] 1 (full slotWithStatus200)
    = Return [{| source := Some (transient (IPv4 10 0 0 1) 7946%Z);
                 heartbeat := 7%Z;
                 node := Some (transient (IPv4 10 0 0 2) 9999%Z);
                 status := 200%Z |}].
Proof. split; [unfold known_status; lia | reflexivity]. Qed.

Lemma decodeMembers_count_from_length_witness :
  exists ms,
    decodeMembers 4 [] 3 (full slotWithStatus200) = Return ms /\
    length ms = 1 /\
    length ms = len (full slotWithStatus200) / (9 + 2 * 4) /\
    forall otherCount,
      decodeMembers 4 [] otherCount (full slotWithStatus200) = Return ms.
Proof.
  apply (decodeMembers_count_from_length 4 [] 3 (full slotWithStatus200) 1).
  - left. reflexivity.
  - reflexivity.
Defined.

(** ** Datagrams that [decodeMessage] cannot read *)

Section DecodeFaults.

Variable ipLen : nat.
Variable knownNodes : list Node.

(** A datagram shorter than its checksum field stops [decodeMessage] with an
    index panic, whatever capacity the slice has. *)
Lemma decodeMessage_short_panics (sourceIP : IP) (bytes : slice) :
  len bytes < 4 ->
  decodeMessage ipLen knownNodes sourceIP bytes = Panic IndexOutOfRange.
Proof.
  intros H. unfold decodeMessage. by rewrite decodeUint32_short by lia.
Qed.

(** X11: a datagram that goes on after its header, passes the checksum check
    and declares more members than the capacity of the slice holds stops
    [decodeMessage] with a slice-bounds panic. *)
Lemma decodeMessage_overclaim_panics (sourceIP : IP) (bytes : slice) (v : Z) :
  decodeUint32 bytes 0 = Return (adler32 (drop 4 (elems bytes)), 4) ->
  index bytes 4 = Return v ->
  11 < len bytes ->
  cap bytes < 11 + unpackCount v * (9 + ipLen + ipLen) ->
  decodeMessage ipLen knownNodes sourceIP bytes = Panic SliceBounds.
Proof.
  intros Hsum Hv Hlen Hcap. unfold decodeMessage. cbv zeta.
  rewrite Hsum. cbn [bind]. rewrite reslice_from_le by lia. cbn [bind elems].
  rewrite Z.eqb_refl. cbn [negb]. unfold decodeByte. rewrite Hv. cbn [bind].
  destruct (decodeUint16_total bytes (4 + 1)) as (senderPort & ->); [lia|].
  cbn [bind].
  destruct (decodeUint32_total bytes (4 + 1 + 2)) as (hb & ->); [lia|].
  cbn [bind].
  rewrite (proj2 (Nat.ltb_lt (4 + 1 + 2 + 4) (len bytes))) by lia.
  unfold reslice.
  rewrite (proj2 (Nat.leb_gt (4 + 1 + 2 + 4 + _) (cap bytes))) by lia.
  by rewrite andb_false_r.
Qed.

End DecodeFaults.

(** C2: what [decodeMessage] does, in an IPv4 process, with the datagram of
    the scenario: 28 bytes, a right checksum, 2 members declared and the
    bytes of 1 present.  On a slice that fills its array it panics with a
    slice-bounds fault; on a slice with 17 spare bytes of capacity it
    returns 2 members, the second read from the spare bytes, and no error.
    A header alone that declares 5 members decodes to no members and no
    error, and the empty datagram panics. *)
Theorem decodeMessage_overclaimed_members :
  (length overclaimingDatagram = 11 + 1 * (9 + 2 * 4) /\
   decodeUint32 (full overclaimingDatagram) 0
     = Return (adler32 (drop 4 overclaimingDatagram), 4) /\
   (unpackCount <$> overclaimingDatagram !! 4) = Some 2) /\
  decodeMessage 4 [] (ip nodeA) (full overclaimingDatagram) = Panic SliceBounds /\
  (exists r,
     decodeMessage 4 [] (ip nodeA) (Slice overclaimingDatagram (replicate 17 9%Z))
       = Return (r, None) /\
     length (members r) = 2) /\
  (exists r,
     decodeMessage 4 [] (ip nodeA) (full headerOnlyDatagram) = Return (r, None) /\
     members r = []) /\
  decodeMessage 4 [] (ip nodeA) (full []) = Panic IndexOutOfRange.
Proof.
  split; [repeat split|].
  split; [reflexivity|].
  split; [eexists; split; reflexivity|].
  split; [eexists; split; reflexivity|].
  reflexivity.
Qed.

(** ** A member without a source *)

Lemma readIP_Return_length (ipLen : nat) (s : slice) (p : nat) (a : IP) :
  readIP ipLen s p = Return a -> length a = 16.
Proof.
  unfold readIP. destruct (ipLen =? IPv6len); intros H.
  - bind_inv H as t Ht. injection H as <-.
    apply reslice_Return in Ht as (_ & _ & Ht & _). unfold len in Ht.
    unfold copy, IPv6len.
    rewrite length_app, length_take, length_drop. cbn [length]. lia.
  - do 4 bind_inv H. by injection H as <-.
Qed.

(** The decoder never leaves the node or the source of a member unset: the
    guards [len(mip) > 0] and [len(sip) > 0] of [decodeMembers] always
    hold. *)
Lemma decodeMember_pointers_set (ipLen : nat) (knownNodes : list Node)
    (s : slice) (p p' : nat) (member : messageMember) :
  decodeMember ipLen knownNodes s p = Return (member, p') ->
  node member <> None /\ source member <> None.
Proof.
  unfold decodeMember. cbv zeta. intros H.
  bind_inv H as mstatus Hst.
  bind_inv H as mip Hmip. apply readIP_Return_length in Hmip.
  bind_inv H as [mport p1] Hmport.
  bind_inv H as [mcode p2] Hmcode.
  bind_inv H as sip Hsip. apply readIP_Return_length in Hsip.
  bind_inv H as [sport p3] Hsport.
  injection H as <- _. rewrite Hmip, Hsip. cbn.
  unfold lookupOrCreate, CreateNodeByIP.
  split; [destruct (getByIP knownNodes mip mport)
         |destruct (getByIP knownNodes sip sport)]; discriminate.
Qed.

Lemma decodeMembers_loop_pointers_set (ipLen : nat) (knownNodes : list Node)
    (fuel : nat) (s : slice) (p : nat) (acc res : list messageMember) :
  decodeMembers_loop ipLen knownNodes fuel s p acc = Return res ->
  Forall (fun x => node x <> None /\ source x <> None) acc ->
  Forall (fun x => node x <> None /\ source x <> None) res.
Proof.
  revert p acc. induction fuel as [|fuel IH]; intros p acc H Hacc;
    cbn [decodeMembers_loop] in H; destruct (p <? len s);
    try discriminate; try (by injection H as <-).
  bind_inv H as [member p'] Hm.
  apply decodeMember_pointers_set in Hm.
  eapply IH; [exact H|]. apply Forall_app. split; [done|]. by constructor.
Qed.

Lemma decodeMembers_pointers_set (ipLen : nat) (knownNodes : list Node)
    (memberCount : nat) (s : slice) (ms : list messageMember) :
  decodeMembers ipLen knownNodes memberCount s = Return ms ->
  Forall (fun x => node x <> None /\ source x <> None) ms.
Proof.
  intros H. eapply decodeMembers_loop_pointers_set; [exact H | constructor].
Qed.

(** C1: what encoding and decoding do, in an IPv4 process, to a message
    with one member that names no source.  [encode] returns
    [gossipDatagram]; [decodeMessage], given the sender's address, returns
    no error and a message whose member has a source, the node 0.0.0.0:0,
    both when the directory is empty and when it holds the sender and the
    member's node. *)
Theorem absent_source_decodes_as_zero_node :
  encode 4 gossipWithoutSource = Return gossipDatagram /\
  decodeMessage 4 [] (ip nodeA) (full gossipDatagram)
    = Return (decodedGossip, None) /\
  decodeMessage 4 [nodeA; nodeB] (ip nodeA) (full gossipDatagram)
    = Return (decodedGossipKnown, None) /\
  source <$> members gossipWithoutSource = [None] /\
  source <$> members decodedGossip = [Some (transient (IPv4 0 0 0 0) 0%Z)] /\
  source <$> members decodedGossipKnown = [Some (transient (IPv4 0 0 0 0) 0%Z)].
Proof. repeat split. Qed.

(** ** Addresses *)

Lemma IPEqual_spec (x y : IP) :
  IPEqual x y = true <->
  x = y \/
  (length x = 4 /\ y = v4InV6Prefix ++ x) \/
  (length y = 4 /\ x = v4InV6Prefix ++ y).
Proof.
  unfold IPEqual, IPv4len, IPv6len.
  destruct (Nat.eqb_spec (length x) (length y)) as [Hlen|Hlen].
  - rewrite bool_decide_eq_true. split; [by left|].
    intros [H | [[H4 ->] | [H4 ->]]]; [done| |];
      rewrite length_app in Hlen; simpl in Hlen; lia.
  - destruct (Nat.eqb_spec (length x) 4) as [Hx|Hx];
      destruct (Nat.eqb_spec (length y) 16) as [Hy|Hy]; cbn [andb].
    + rewrite andb_true_iff, !bool_decide_eq_true. split.
      * intros [Hp ->]. right. left. split; [done|].
        by rewrite <- Hp, take_drop.
      * intros [-> | [[_ ->] | [H4 ->]]]; [done| |].
        -- by rewrite take_app_length', drop_app_length'.
        -- rewrite length_app in Hx. simpl in Hx. lia.
    + destruct (Nat.eqb_spec (length y) 4) as [Hy4|Hy4]; [lia|].
      rewrite andb_false_r. split; [done|].
      intros [-> | [[_ ->] | [H4 ->]]]; [done| |lia].
      rewrite length_app in Hy. simpl in Hy. lia.
    + destruct (Nat.eqb_spec (length x) 16) as [Hx16|Hx16]; cbn [andb].
      * destruct (Nat.eqb_spec (length y) 4) as [Hy4|Hy4]; [lia|].
        split; [done|]. intros [-> | [[H4 ->] | [H4 ->]]]; [done|lia|lia].
      * split; [done|]. intros [-> | [[H4 ->] | [H4 ->]]]; [done|lia|].
        rewrite length_app in Hx16. simpl in Hx16. lia.
    + destruct (Nat.eqb_spec (length x) 16) as [Hx16|Hx16]; cbn [andb].
      * destruct (Nat.eqb_spec (length y) 4) as [Hy4|Hy4].
        -- rewrite andb_true_iff, !bool_decide_eq_true. split.
           ++ intros [Hp <-]. right. right. split; [done|].
              by rewrite <- Hp, take_drop.
           ++ intros [-> | [[H4 ->] | [_ ->]]]; [done|lia|].
              by rewrite take_app_length', drop_app_length'.
        -- split; [done|]. intros [-> | [[H4 ->] | [H4 ->]]]; [done|lia|lia].
      * split; [done|]. intros [-> | [[H4 ->] | [H4 ->]]]; [done|lia|].
        rewrite length_app in Hx16. simpl in Hx16. lia.
Qed.

Lemma IPEqual_trans (x c y : IP) :
  IPEqual x c = true -> IPEqual c y = true -> IPEqual x y = true.
Proof.
  rewrite !IPEqual_spec.
  intros [-> | [[Hx ->] | [Hc ->]]] [<- | [[Hc' ->] | [Hy Hcy]]]; auto.
  - rewrite length_app in Hc'. simpl in Hc'. lia.
  - apply app_inv_head in Hcy as ->. auto.
  - subst c. rewrite length_app in Hc. simpl in Hc. lia.
Qed.

(** ** Reads at the cursor

    While a decoder runs, what is left to read is [drop p (elems s)]. *)

Lemma view_next (l a rest : list Z) (p : nat) :
  drop p l = a ++ rest -> drop (p + length a) l = rest.
Proof. intros H. by rewrite <- drop_drop, H, drop_app_length. Qed.

Lemma view_index (s : slice) (p : nat) (x : Z) (rest : list Z) :
  drop p (elems s) = x :: rest -> index s p = Return x.
Proof.
  intros H. unfold index.
  assert (E : elems s !! p = Some x).
  { rewrite <- (Nat.add_0_r p), <- lookup_drop, H. reflexivity. }
  by rewrite E.
Qed.

Lemma view_decodeUint16 (s : slice) (p : nat) (n : Z) (rest : list Z) :
  drop p (elems s) = be16 n ++ rest -> is_uint16 n ->
  decodeUint16 s p = Return (n, p + 2).
Proof.
  intros H Hn. unfold decodeUint16.
  rewrite (view_index s p _ _ H). cbn [bind].
  rewrite (view_index s (p + 1) _ _ (view_next _ [_] _ _ H)). cbn [bind].
  by rewrite be16_value.
Qed.

Lemma view_decodeUint32 (s : slice) (p : nat) (n : Z) (rest : list Z) :
  drop p (elems s) = be32 n ++ rest -> is_uint32 n ->
  decodeUint32 s p = Return (n, p + 4).
Proof.
  intros H Hn. unfold decodeUint32.
  rewrite (view_index s p _ _ H). cbn [bind].
  rewrite (view_index s (p + 1) _ _ (view_next _ [_] _ _ H)). cbn [bind].
  rewrite (view_index s (p + 2) _ _ (view_next _ [_; _] _ _ H)). cbn [bind].
  rewrite (view_index s (p + 3) _ _ (view_next _ [_; _; _] _ _ H)). cbn [bind].
  by rewrite be32_value.
Qed.

Lemma view_length (l a rest : list Z) (p : nat) :
  drop p l = a ++ rest -> 0 < length a -> p + length a <= length l.
Proof.
  intros H Ha. apply (f_equal length) in H.
  rewrite length_drop, length_app in H. lia.
Qed.

Section RoundTrip.

Variable ipLen : nat.
Variable knownNodes : list Node.
Hypothesis ipLen_family : ipLen = 4 \/ ipLen = 16.

Lemma view_readIP (s : slice) (p : nat) (a rest : list Z) :
  drop p (elems s) = a ++ rest -> length a = ipLen -> 0 < length a ->
  readIP ipLen s p = Return (wireToIP ipLen a).
Proof using ipLen_family.
  intros H Ha Hpos. unfold readIP, wireToIP, IPv6len.
  destruct ipLen_family as [E|E]; rewrite E in *; cbn [Nat.eqb].
  - destruct a as [|b0 [|b1 [|b2 [|b3 [|? ?]]]]]; try discriminate.
    rewrite (view_index s (p + 0) b0 ([b1; b2; b3] ++ rest))
      by (by rewrite Nat.add_0_r).
    cbn [bind].
    rewrite (view_index s (p + 1) _ _ (view_next _ [_] _ _ H)). cbn [bind].
    rewrite (view_index s (p + 2) _ _ (view_next _ [_; _] _ _ H)). cbn [bind].
    rewrite (view_index s (p + 3) _ _ (view_next _ [_; _; _] _ _ H)). cbn [bind].
    reflexivity.
  - pose proof (view_length _ _ _ _ H Hpos) as Hlen.
    unfold reslice, cap.
    rewrite (proj2 (Nat.leb_le p (p + 16))) by lia.
    rewrite (proj2 (Nat.leb_le (p + 16) _)) by lia.
    cbn [andb bind elems]. f_equal.
    rewrite drop_app_le by lia. rewrite H.
    replace (p + 16 - p) with (length a) by lia.
    rewrite <- app_assoc, take_app_length.
    unfold copy. rewrite length_replicate, Ha.
    rewrite take_ge by lia. rewrite drop_ge; [|rewrite length_replicate; lia].
    by rewrite app_nil_r.
Qed.

Lemma wireToIP_length (a : list Z) :
  length a = ipLen -> length (wireToIP ipLen a) = 16.
Proof using ipLen_family.
  intros Ha. unfold wireToIP, IPv6len.
  destruct ipLen_family as [E|E]; rewrite E in *; cbn [Nat.eqb]; [|done].
  by destruct a as [|b0 [|b1 [|b2 [|b3 [|? ?]]]]].
Qed.

Lemma wireToIP_wireIP (n : Node) :
  encodable_node ipLen n ->
  IPEqual (wireToIP ipLen (wireIP ipLen n)) (ip n) = true.
Proof using ipLen_family.
  unfold encodable_node, wireIP, wireToIP, To4, To16, IPv4len, IPv6len.
  intros Hn. apply IPEqual_spec.
  destruct ipLen_family as [E|E]; rewrite E in *; cbn [Nat.eqb] in *.
  - destruct (Nat.eqb_spec (length (ip n)) 4) as [H4|H4].
    + rewrite take_ge by lia.
      destruct (ip n) as [|b0 [|b1 [|b2 [|b3 [|? ?]]]]]; try discriminate.
      right. right. by split.
    + destruct (Nat.eqb_spec (length (ip n)) 16) as [H16|H16]; cbn [andb] in *;
        [|by rewrite take_nil in Hn].
      destruct (bool_decide (take 12 (ip n) = v4InV6Prefix)) eqn:Hp;
        [|by rewrite take_nil in Hn].
      apply bool_decide_eq_true in Hp.
      rewrite take_ge by (rewrite length_drop; lia).
      left. rewrite <- (take_drop 12 (ip n)) at 2. rewrite Hp.
      destruct (drop 12 (ip n)) as [|b0 [|b1 [|b2 [|b3 [|? ?]]]]] eqn:Hd;
        try (apply (f_equal length) in Hd; rewrite length_drop in Hd;
             simpl in Hd; lia).
      reflexivity.
  - destruct (Nat.eqb_spec (length (ip n)) 4) as [H4|H4].
    + rewrite take_ge by (rewrite length_app; simpl; lia).
      right. right. by split.
    + destruct (Nat.eqb_spec (length (ip n)) 16) as [H16|H16];
        [|by rewrite take_nil in Hn].
      rewrite take_ge by lia. by left.
Qed.

(** The node the decoder finds or makes for an address has that address. *)
Lemma lookupOrCreate_same (ip0 : IP) (port0 : Z) (orig : Node) :
  IPEqual ip0 (ip orig) = true -> port0 = port orig ->
  same_node_ptr (lookupOrCreate knownNodes ip0 port0) (Some orig).
Proof.
  intros Hip Hport. unfold lookupOrCreate, getByIP.
  destruct (find _ knownNodes) as [n|] eqn:Hfind; cbn.
  - apply find_some in Hfind as [_ Hn].
    apply andb_true_iff in Hn as [Hn Hp]. apply Z.eqb_eq in Hp.
    split; [by eapply IPEqual_trans | congruence].
  - by split.
Qed.

Lemma decodeMember_wire (s : slice) (p : nat) (member : messageMember)
    (rest : list Z) :
  drop p (elems s) = memberWire ipLen member ++ rest ->
  encodable_member ipLen member ->
  typed_member member ->
  source member <> None ->
  exists member',
    decodeMember ipLen knownNodes s p
      = Return (member', p + (9 + ipLen + ipLen)) /\
    same_member member' member.
Proof using ipLen_family.
  intros H [Hnode Hsrc] (Hst & Hhb & Hnp & Hsp) Hsome.
  unfold memberWire, sourceWire in H.
  destruct (node member) as [mn|] eqn:En; [|done].
  destruct (source member) as [sn|] eqn:Es; [clear Hsome|done].
  specialize (Hsrc sn eq_refl). cbn [encodable_ptr] in Hnode.
  specialize (Hnp mn eq_refl). specialize (Hsp sn eq_refl).
  assert (Hwn : length (wireIP ipLen mn) = ipLen) by exact Hnode.
  assert (Hws : length (wireIP ipLen sn) = ipLen) by exact Hsrc.
  assert (Hpos : 0 < ipLen) by (destruct ipLen_family; lia).
  rewrite <- !app_assoc in H.
  pose proof (view_next _ [_] _ _ H) as H1. cbn [length] in H1.
  pose proof (view_next _ _ _ _ H1) as H2. rewrite Hwn in H2.
  pose proof (view_next _ _ _ _ H2) as H3. cbn [be16 length] in H3.
  pose proof (view_next _ _ _ _ H3) as H4. cbn [be32 length] in H4.
  pose proof (view_next _ _ _ _ H4) as H5. rewrite Hws in H5.
  unfold decodeMember. cbv zeta.
  rewrite (view_index s p _ _ H). cbn [bind].
  rewrite (view_readIP s _ _ _ H1) by lia. cbn [bind].
  rewrite (view_decodeUint16 s _ _ _ H2) by done. cbn [bind].
  rewrite (view_decodeUint32 s _ _ _ H3) by done. cbn [bind].
  rewrite (view_readIP s _ _ _ H4) by lia. cbn [bind].
  rewrite (view_decodeUint16 s _ _ _ H5) by done. cbn [bind].
  rewrite !wireToIP_length by done. cbn [Nat.ltb Nat.leb].
  eexists. split; [f_equal; f_equal; lia|].
  unfold same_member. cbn [status heartbeat node source].
  rewrite En, Es. split; [by apply byte_of_id|]. split; [done|].
  split; apply lookupOrCreate_same; auto using wireToIP_wireIP.
Qed.

Lemma decodeMembers_loop_wire (ms : list messageMember) (fuel : nat) (s : slice)
    (p : nat) (acc : list messageMember) :
  drop p (elems s) = concat (map (memberWire ipLen) ms) ->
  p <= len s ->
  Forall (encodable_member ipLen) ms ->
  Forall typed_member ms ->
  Forall (fun x => source x <> None) ms ->
  length ms <= fuel ->
  exists ms',
    decodeMembers_loop ipLen knownNodes fuel s p acc = Return (acc ++ ms') /\
    Forall2 same_member ms' ms.
Proof using ipLen_family.
  revert fuel p acc.
  induction ms as [|member ms IH]; intros fuel p acc H Hp Henc Hty Hsrc Hfuel.
  - exists []. rewrite app_nil_r. split; [|constructor].
    apply (f_equal length) in H. rewrite length_drop in H. cbn in H.
    destruct fuel; cbn [decodeMembers_loop];
      destruct (Nat.ltb_spec p (len s)); try done; unfold len in *; lia.
  - inversion Henc as [|? ? Hm Henc']; inversion Hty as [|? ? Ht Hty'];
      inversion Hsrc as [|? ? Hs Hsrc']; subst.
    cbn [map concat] in H.
    assert (Hw := memberWire_length ipLen member Hm).
    pose proof (view_length _ _ _ _ H ltac:(lia)) as Hlen. rewrite Hw in Hlen.
    destruct fuel as [|fuel]; [cbn in Hfuel; lia|]. cbn [decodeMembers_loop].
    destruct (Nat.ltb_spec p (len s)) as [_|Hge]; [|unfold len in *; lia].
    destruct (decodeMember_wire s p member _ H Hm Ht Hs) as (member' & -> & Hsame).
    cbn [bind].
    apply view_next in H. rewrite Hw in H.
    destruct (IH fuel (p + (9 + ipLen + ipLen)) (acc ++ [member']) H)
      as (ms' & -> & Hms'); [unfold len; lia|done..|cbn in Hfuel; lia|].
    exists (member' :: ms'). rewrite <- app_assoc. split; [done|].
    by constructor.
Qed.

Lemma decodeBroadcast_wire (b : Broadcast) (spare0 : list Z) :
  encodable_ptr ipLen (origin b) ->
  typed_broadcast (Some b) ->
  exists b',
    decodeBroadcast ipLen knownNodes (Slice (broadcastWire ipLen (Some b)) spare0)
      = (Some b', None) /\
    same_broadcast (Some b') (Some b).
Proof using ipLen_family.
  intros Ho Hty. destruct (Hty b eq_refl) as (Hidx & Hlen & Hport).
  pose proof (Broadcast_encode_wire ipLen b Ho) as [_ Hsize].
  unfold broadcastWire in *. destruct (origin b) as [o|] eqn:Eo; [|done].
  cbn [encodable_ptr] in Ho. specialize (Hport o eq_refl).
  assert (Hw : length (wireIP ipLen o) = ipLen) by exact Ho.
  assert (Hpos : 0 < ipLen) by (destruct ipLen_family; lia).
  set (wire := wireIP ipLen o ++ _) in *.
  set (s := Slice wire spare0).
  assert (H0 : drop 0 (elems s) = wire) by reflexivity.
  unfold wire in H0.
  pose proof (view_next _ _ _ _ H0) as H1. rewrite Hw in H1. cbn [Nat.add] in H1.
  pose proof (view_next _ _ _ _ H1) as H2. cbn [be16 length] in H2.
  pose proof (view_next _ _ _ _ H2) as H3. cbn [be32 length] in H3.
  pose proof (view_next _ _ _ _ H3) as H4. cbn [be16 length] in H4.
  unfold decodeBroadcast. fold s.
  assert (Hs : len s = 8 + ipLen + length (bytes b)) by exact Hsize.
  destruct (Nat.ltb_spec (len s) (8 + ipLen)) as [Hlt|_]; [lia|].
  rewrite (view_readIP s 0 _ _ H0) by lia. cbn [bind].
  rewrite (view_decodeUint16 s _ _ _ H1) by done. cbn [bind].
  rewrite (view_decodeUint32 s _ _ _ H2) by done. cbn [bind].
  rewrite (view_decodeUint16 s _ _ _ H3)
    by (unfold is_uint16; apply Z.mod_pos_bound; lia).
  cbn [bind].
  rewrite Z.mod_small by exact Hlen. rewrite Nat2Z.id.
  destruct (Nat.ltb_spec (len s) (ipLen + 2 + 4 + 2 + length (bytes b))) as [Hlt|_];
    [lia|].
  eexists. split; [reflexivity|].
  cbn [same_broadcast origin bcastIndex bytes]. rewrite Eo.
  split; [|split; [done|]].
  - apply lookupOrCreate_same; [by apply wireToIP_wireIP | done].
  - rewrite H4. by rewrite take_ge.
Qed.

(** Round trip.  A typed message that [encode] accepts and whose members all
    name a source comes back from [decodeMessage], given the sender's
    address as the source address, without an error and with the same
    verb, heartbeats, statuses and payload, and with nodes of the same
    addresses and ports; this holds for every directory and every spare
    capacity of the datagram's slice. *)
Lemma round_trip_with_sources (m : message) (bs : list Z) (sourceIP : IP)
    (spare0 : list Z) :
  typed_message m ->
  encode ipLen m = Return bs ->
  Forall (fun x => source x <> None) (members m) ->
  (forall s, sender m = Some s -> IPEqual sourceIP (ip s) = true) ->
  exists r,
    decodeMessage ipLen knownNodes sourceIP (Slice bs spare0) = Return (r, None) /\
    same_message r m.
Proof using ipLen_family.
  intros (Hverb & Hcount & Hhb & Hsp & Hty & Hbty) Henc Hsrc Hip.
  apply encode_Return_wire in Henc as [(Hs & Hms & Hb) ->].
  unfold messageWire, bodyWire in *.
  destruct (sender m) as [sn|] eqn:Es; [clear Hs|done].
  specialize (Hsp sn eq_refl). specialize (Hip sn eq_refl).
  set (w := 9 + ipLen + ipLen).
  set (mw := concat (map (memberWire ipLen) (members m))).
  set (bw := broadcastWire ipLen (broadcast m)).
  assert (Hmw : length mw = length (members m) * w)
    by (by apply membersWire_length).
  set (body := [_] ++ be16 _ ++ be32 _ ++ mw ++ bw).
  set (s := Slice (be32 (adler32 body) ++ body) spare0).
  destruct (unpack_packVerb (length (members m)) (verb m) Hcount Hverb)
    as [Hunverb Huncount].
  assert (H0 : drop 0 (elems s) = be32 (adler32 body) ++ body) by reflexivity.
  pose proof (view_next _ _ _ _ H0) as H4. cbn [be32 length Nat.add] in H4.
  unfold body in H4.
  pose proof (view_next _ _ _ _ H4) as H5. cbn [length Nat.add] in H5.
  pose proof (view_next _ _ _ _ H5) as H7. cbn [be16 length Nat.add] in H7.
  pose proof (view_next _ _ _ _ H7) as H11. cbn [be32 length Nat.add] in H11.
  pose proof (view_next _ _ _ _ H11) as Hend. rewrite Hmw in Hend.
  assert (Hlen : len s = 11 + length (members m) * w + length bw).
  { unfold len, s, body. cbn [elems]. rewrite !length_app, Hmw. simpl. lia. }
  unfold decodeMessage. cbv zeta. fold w.
  rewrite (view_decodeUint32 s 0 _ _ H0) by apply adler32_range. cbn [bind].
  change (0 + 4) with 4.
  rewrite reslice_from_le by lia. cbn [bind elems].
  change (drop 4 (be32 (adler32 body) ++ body)) with body.
  rewrite Z.eqb_refl. cbn [negb].
  unfold decodeByte. rewrite (view_index s 4 _ _ H4). cbn [bind].
  change (4 + 1) with 5.
  rewrite (view_decodeUint16 s 5 _ _ H5) by done. cbn [bind].
  change (5 + 2) with 7.
  rewrite (view_decodeUint32 s 7 _ _ H7) by done. cbn [bind].
  change (7 + 4) with 11.
  rewrite Hunverb, Huncount.
  pose proof (lookupOrCreate_same sourceIP (port sn) sn Hip eq_refl) as Hsender.
  (* the members *)
  assert (Hmembers : exists ms',
    (if 11 <? len s
     then let* s0 := reslice s 11 (11 + length (members m) * w) in
          let* ms := decodeMembers ipLen knownNodes (length (members m)) s0 in
          Return (set_members
                    (newMessage (verb m)
                       (lookupOrCreate knownNodes sourceIP (port sn))
                       (senderHeartbeat m)) ms)
     else Return (newMessage (verb m)
                    (lookupOrCreate knownNodes sourceIP (port sn))
                    (senderHeartbeat m)))
    = Return (set_members
                (newMessage (verb m)
                   (lookupOrCreate knownNodes sourceIP (port sn))
                   (senderHeartbeat m)) ms') /\
    Forall2 same_member ms' (members m)).
  { destruct (Nat.ltb_spec 11 (len s)) as [Hgt|Hle].
    - unfold reslice, cap. fold (len s).
      rewrite (proj2 (Nat.leb_le 11 _)) by lia.
      rewrite (proj2 (Nat.leb_le (11 + _) _)) by lia.
      cbn [andb bind].
      set (s0 := Slice _ _).
      assert (Hs0 : elems s0 = mw).
      { unfold s0. cbn [elems]. rewrite drop_app_le by (fold (len s); lia).
        rewrite H11, <- app_assoc.
        apply take_app_length'. lia. }
      destruct (decodeMembers_loop_wire (members m) (len s0) s0 0 [])
        as (ms' & Hdec & Hsame); [by rewrite drop_0|lia|done..| |].
      { unfold len. rewrite Hs0, Hmw. unfold w. nia. }
      unfold decodeMembers. rewrite Hdec. cbn [bind app]. by exists ms'.
    - exists []. split; [reflexivity|].
      assert (members m = []) as -> by (destruct (members m); [done|simpl in *; lia]).
      constructor. }
  destruct Hmembers as (ms' & -> & Hsame). cbn [bind].
  (* the broadcast *)
  destruct (broadcast m) as [b|] eqn:Eb.
  - destruct (Broadcast_encode_wire ipLen b Hb) as [_ Hbw]. fold bw in Hbw.
    destruct (Nat.ltb_spec (11 + length (members m) * w) (len s)) as [_|Hge]; [|lia].
    rewrite reslice_from_le by lia. cbn [bind].
    rewrite Hend.
    destruct (decodeBroadcast_wire b spare0 Hb) as (b' & Hdec & Hbsame);
      [by intros ? [= <-]; apply Hbty|].
    fold bw in Hdec. cbn [spare s]. rewrite Hdec.
    eexists. split; [reflexivity|].
    unfold same_message.
    cbn [verb senderHeartbeat sender members broadcast addBroadcast
         set_members newMessage].
    rewrite Es, Eb. by repeat (split; [done|]).
  - assert (Hbw : length bw = 0) by reflexivity.
    destruct (Nat.ltb_spec (11 + length (members m) * w) (len s)) as [Hlt|_]; [lia|].
    cbn [bind]. eexists. split; [reflexivity|].
    unfold same_message.
    cbn [verb senderHeartbeat sender members broadcast addBroadcast
         set_members newMessage].
    rewrite Es, Eb. by repeat (split; [done|]).
Qed.

End RoundTrip.

(** The ACK with 5 members, each naming its source, comes back from an IPv4
    process whose directory holds both nodes. *)
Example round_trip_ackWith5 :
  exists bs r,
    encode 4 ackWith5 = Return bs /\
    decodeMessage 4 [nodeA; nodeB] (ip nodeA) (full bs) = Return (r, None) /\
    same_message r ackWith5.
Proof.
  assert (Henc : exists bs, encode 4 ackWith5 = Return bs)
    by (eexists; reflexivity).
  destruct Henc as [bs Henc]. exists bs.
  destruct (round_trip_with_sources 4 [nodeA; nodeB] (or_introl eq_refl)
              ackWith5 bs (ip nodeA) []) as (r & Hdec & Hsame).
  - assert (Hport : forall n, n = nodeA \/ n = nodeB -> is_uint16 (port n))
      by (intros n [-> | ->]; unfold is_uint16; cbn; lia).
    assert (Hmem : typed_member {| source := Some nodeA; heartbeat := 1%Z;
                                   node := Some nodeB; status := StatusAlive |}).
    { unfold typed_member, typed_ptr. cbn [status heartbeat node source].
      split; [unfold is_byte, StatusAlive; lia|].
      split; [unfold is_uint32; lia|].
      split; intros n [= <-]; auto. }
    unfold typed_message, typed_ptr, typed_broadcast.
    cbn [verb members senderHeartbeat sender broadcast ackWith5].
    split; [unfold defined_verb, verbAck; lia|].
    split; [cbn; lia|].
    split; [unfold is_uint32; lia|].
    split; [intros n [= <-]; auto|].
    split; [|discriminate].
    cbn [replicate]. repeat (constructor; [exact Hmem|]). constructor.
  - exact Henc.
  - repeat constructor; discriminate.
  - intros s [= <-]. reflexivity.
  - exists r. split; [exact Henc|]. split; [exact Hdec | exact Hsame].
Qed.

(** * Further properties *)

(** ** Building a message *)

Lemma addMember_members (m : message) (x : messageMember) :
  members (fst (addMember m (node x) (status x) (heartbeat x) (source x)))
    = members m ++ take (63 - length (members m)) [x].
Proof.
  unfold addMember. destruct x as [src hb n st]. cbn [node status heartbeat source].
  destruct (Nat.leb_spec 63 (length (members m))) as [Hfull|Hroom]; cbn [fst].
  - replace (63 - length (members m)) with 0 by lia. by rewrite app_nil_r.
  - replace (63 - length (members m)) with (S (62 - length (members m))) by lia.
    cbn [take set_members members]. by rewrite take_nil.
Qed.

Lemma addMembers_members (xs : list messageMember) (m : message) :
  members (addMembers m xs) = members m ++ take (63 - length (members m)) xs.
Proof.
  revert m. induction xs as [|x xs IH]; intros m.
  - cbn. by rewrite take_nil, app_nil_r.
  - cbn [addMembers fold_left]. fold (addMembers
      (fst (addMember m (node x) (status x) (heartbeat x) (source x))) xs).
    rewrite IH, addMember_members.
    destruct (Nat.le_gt_cases 63 (length (members m))) as [Hfull|Hroom].
    + replace (63 - length (members m)) with 0 by lia.
      cbn [take]. rewrite !app_nil_r.
      replace (63 - length (members m)) with 0 by lia.
      cbn [take]. by rewrite app_nil_r.
    + replace (63 - length (members m)) with (S (62 - length (members m))) by lia.
      cbn [take]. rewrite take_nil, length_app. cbn [length].
      rewrite <- app_assoc. cbn [app]. do 3 f_equal. lia.
Qed.

(** X1: a run of [addMember] calls appends the new members in order until
    the message holds 63 and drops every later one; it never removes or
    reorders a member, never changes the header or the broadcast, and a
    message that starts with at most 63 members never gets more. *)
Theorem addMembers_keeps_first_63 (m : message) (xs : list messageMember) :
  members (addMembers m xs) = members m ++ take (63 - length (members m)) xs /\
  sender (addMembers m xs) = sender m /\
  senderHeartbeat (addMembers m xs) = senderHeartbeat m /\
  verb (addMembers m xs) = verb m /\
  broadcast (addMembers m xs) = broadcast m /\
  (length (members m) <= 63 -> length (members (addMembers m xs)) <= 63).
Proof.
  assert (Hrest : forall xs m,
    sender (addMembers m xs) = sender m /\
    senderHeartbeat (addMembers m xs) = senderHeartbeat m /\
    verb (addMembers m xs) = verb m /\
    broadcast (addMembers m xs) = broadcast m).
  { clear. induction xs as [|x xs IH]; intros m; [done|].
    cbn [addMembers fold_left]. fold (addMembers
      (fst (addMember m (node x) (status x) (heartbeat x) (source x))) xs).
    destruct (IH (fst (addMember m (node x) (status x) (heartbeat x) (source x))))
      as (-> & -> & -> & ->).
    unfold addMember. by destruct (63 <=? length (members m)). }
  split; [apply addMembers_members|].
  destruct (Hrest xs m) as (? & ? & ? & ?). do 4 (split; [done|]).
  intros Hm. rewrite addMembers_members, length_app, length_take. lia.
Qed.

Lemma addMembers_keeps_first_63_witness :
  length (members (addMembers pingFromA (replicate 70 forwardToMember))) <= 63.
Proof.
  apply (proj2 (proj2 (proj2 (proj2 (proj2
           (addMembers_keeps_first_63 pingFromA (replicate 70 forwardToMember))))))).
  cbn. lia.
Defined.

(** X2: what [getForwardTo] reports is settled by the first member a
    message gets.  On a message that has members, no run of [addMember]
    calls changes it; on a message without members, a run reports its first
    new member when that member carries [StatusForwardTo] and none
    otherwise, whatever is added after it. *)
Theorem getForwardTo_settled_by_first_member (m : message) (x : messageMember)
    (xs : list messageMember) :
  (members m <> [] -> getForwardTo (addMembers m xs) = getForwardTo m) /\
  (members m = [] ->
   getForwardTo (addMembers m (x :: xs))
     = if (status x =? StatusForwardTo)%Z then Some x else None).
Proof.
  unfold getForwardTo. rewrite !addMembers_members. split.
  - destruct (members m) as [|first rest]; [done|]. reflexivity.
  - intros ->. reflexivity.
Qed.

Lemma getForwardTo_settled_by_first_member_witness :
  getForwardTo (addMembers pingWithForwardTo (replicate 3 (mkAlive nodeB)))
    = getForwardTo pingWithForwardTo /\
  getForwardTo (addMembers pingFromA (forwardToMember :: replicate 3 (mkAlive nodeB)))
    = if (status forwardToMember =? StatusForwardTo)%Z
      then Some forwardToMember else None.
Proof.
  split.
  - apply (proj1 (getForwardTo_settled_by_first_member pingWithForwardTo
                    forwardToMember (replicate 3 (mkAlive nodeB)))).
    discriminate.
  - apply (proj2 (getForwardTo_settled_by_first_member pingFromA
                    forwardToMember (replicate 3 (mkAlive nodeB)))).
    reflexivity.
Defined.

(** ** The names of the verbs *)

Lemma unpackVerb_defined (v : Z) : defined_verb (unpackVerb v).
Proof.
  unfold defined_verb, unpackVerb.
  change (Z.land v 3) with (Z.land v (Z.ones 2)).
  rewrite Z.land_ones by lia. change (2 ^ 2)%Z with 4%Z.
  pose proof (Z.mod_pos_bound v 4). lia.
Qed.

Lemma defined_verb_cases (v : messageVerb) :
  defined_verb v <->
  v = verbPing \/ v = verbAck \/ v = verbPingRequest \/ v = verbNonForwardingPing.
Proof.
  unfold defined_verb, verbPing, verbAck, verbPingRequest, verbNonForwardingPing.
  lia.
Qed.

Lemma decodeMessage_checksum_error_message (ipLen : nat) (knownNodes : list Node)
    (sourceIP : IP) (bytes : slice) (r : message) :
  decodeMessage ipLen knownNodes sourceIP bytes
    = Return (r, Some (ErrChecksumFailure sourceIP)) ->
  r = newMessage 255%Z None 0%Z.
Proof.
  intros H. pose proof H as H'. unfold decodeMessage in H'.
  bind_inv H' as [stated p] Hsum. bind_inv H' as tail Htail.
  destruct (decodeUint32_Return _ _ _ _ Hsum) as [Hlen _].
  rewrite reslice_from_le in Htail by lia. injection Htail as <-.
  cbn [elems] in H'.
  destruct (Z.eqb_spec (adler32 (drop 4 (elems bytes))) stated) as [Heq|Hne];
    cbn [negb] in H'.
  - pose proof (decodeMessage_match_error _ _ _ _ _ _ _ _ Hsum Heq H).
    discriminate.
  - by injection H' as <-.
Qed.

(** X3: [String] gives the four verbs four different names and every other
    value the name UNDEFINED.  The verb of a message [decodeMessage] returns
    after the checksum check has passed always has one of the four names;
    the verb of the message it returns with the checksum error prints as
    UNDEFINED. *)
Theorem messageVerb_String_names (ipLen : nat) (knownNodes : list Node) :
  (forall v w,
     defined_verb v -> defined_verb w ->
     messageVerb_String v = messageVerb_String w -> v = w) /\
  (forall v, messageVerb_String v = "UNDEFINED" <-> ~ defined_verb v) /\
  (forall sourceIP bytes r err,
     decodeMessage ipLen knownNodes sourceIP bytes = Return (r, err) ->
     (err = Some (ErrChecksumFailure sourceIP) ->
      messageVerb_String (verb r) = "UNDEFINED") /\
     (err <> Some (ErrChecksumFailure sourceIP) ->
      messageVerb_String (verb r) <> "UNDEFINED")).
Proof.
  assert (Hundef : forall v, messageVerb_String v = "UNDEFINED" <-> ~ defined_verb v).
  { intros v. rewrite defined_verb_cases. unfold messageVerb_String.
    destruct (Z.eqb_spec v verbPing) as [->|H0]; [split; [discriminate|tauto]|].
    destruct (Z.eqb_spec v verbAck) as [->|H1]; [split; [discriminate|tauto]|].
    destruct (Z.eqb_spec v verbPingRequest) as [->|H2]; [split; [discriminate|tauto]|].
    destruct (Z.eqb_spec v verbNonForwardingPing) as [->|H3];
      [split; [discriminate|tauto]|].
    split; [tauto|done]. }
  split; [|split; [exact Hundef|]].
  - intros v w Hv Hw.
    apply defined_verb_cases in Hv as [-> | [-> | [-> | ->]]];
      apply defined_verb_cases in Hw as [-> | [-> | [-> | ->]]];
      cbn; congruence.
  - intros sourceIP bytes r err H. split.
    + intros ->. apply decodeMessage_checksum_error_message in H as ->.
      reflexivity.
    + intros Herr.
      destruct (decodeMessage_Return_good _ _ _ _ _ _ H Herr)
        as (v & _ & _ & _ & _ & _ & -> & _).
      rewrite Hundef. intros Hno. apply Hno, unpackVerb_defined.
Qed.

Lemma messageVerb_String_names_witness :
  (messageVerb_String verbPing = messageVerb_String verbPing -> verbPing = verbPing) /\
  messageVerb_String (verb (newMessage 255%Z None 0%Z)) = "UNDEFINED" /\
  messageVerb_String (verb decodedGossip) <> "UNDEFINED".
Proof.
  destruct (messageVerb_String_names 4 []) as (Hinj & _ & Hdec).
  split; [|split].
  - apply (Hinj verbPing verbPing); unfold defined_verb, verbPing; lia.
  - apply (proj1 (Hdec (ip nodeA) (full [0; 0; 0; 0; 9]%Z)
                    (newMessage 255%Z None 0%Z)
                    (Some (ErrChecksumFailure (ip nodeA))) eq_refl)).
    reflexivity.
  - apply (proj2 (Hdec (ip nodeA) (full gossipDatagram) decodedGossip None
                    eq_refl)).
    discriminate.
Defined.

(** ** The member count beyond 63 *)

Lemma lor_low2 (k v : Z) :
  defined_verb v -> Z.lor (k * 4) v = (k * 4 + v)%Z.
Proof.
  intros Hv. unfold defined_verb in Hv. symmetry. apply Z.add_nocarry_lor.
  apply Z.bits_inj'. intros i Hi. rewrite Z.bits_0, Z.land_spec.
  destruct (Z.lt_ge_cases i 2) as [Hlt|Hge].
  - replace (k * 4)%Z with (Z.shiftl k 2)
      by (rewrite Z.shiftl_mul_pow2 by lia; reflexivity).
    rewrite Z.shiftl_spec by lia. by rewrite Z.testbit_neg_r by lia.
  - rewrite (uint_testbit_high v 2 i) by lia. apply andb_false_r.
Qed.

Lemma packVerb_wraps (n : nat) (v : Z) :
  defined_verb v -> packVerb n v = (Z.of_nat n mod 64 * 4 + v)%Z.
Proof.
  intros Hv. unfold packVerb.
  rewrite (byte_of_id v) by (unfold defined_verb in Hv; unfold is_byte; lia).
  rewrite Z.shiftl_mul_pow2 by lia. change (2 ^ 2)%Z with 4%Z.
  replace (byte_of (byte_of (Z.of_nat n) * 4)) with (Z.of_nat n mod 64 * 4)%Z.
  - by apply lor_low2.
  - unfold byte_of. Z.div_mod_to_equations. lia.
Qed.

Lemma unpack_sum (k v : Z) :
  (0 <= k)%Z -> defined_verb v ->
  unpackVerb (k * 4 + v) = v /\ unpackCount (k * 4 + v) = Z.to_nat k.
Proof.
  intros Hk Hv. unfold defined_verb in Hv. unfold unpackVerb, unpackCount. split.
  - change (Z.land (k * 4 + v) 3) with (Z.land (k * 4 + v) (Z.ones 2)).
    rewrite Z.land_ones by lia. change (2 ^ 2)%Z with 4%Z.
    rewrite Z.add_comm, Z.mod_add by lia. apply Z.mod_small. lia.
  - rewrite Z.shiftr_div_pow2 by lia. change (2 ^ 2)%Z with 4%Z.
    rewrite Z.add_comm, Z.div_add by lia.
    by rewrite Z.div_small by lia.
Qed.

(** X4: [encode] does not check the number of members.  The packed byte
    holds the count modulo 64: the datagram of a message with one of the
    four verbs always unpacks to that verb, and to the number of members
    only up to 63; 64 members are written as 0, 65 as 1. *)
Theorem encode_count_modulo_64 (ipLen : nat) (m : message) (bs : list Z) :
  encode ipLen m = Return bs ->
  defined_verb (verb m) ->
  exists v,
    bs !! 4 = Some v /\
    unpackVerb v = verb m /\
    unpackCount v = length (members m) mod 64 /\
    (63 < length (members m) -> unpackCount v <> length (members m)).
Proof.
  intros H Hv. apply encode_Return_wire in H as [(Hs & _) ->].
  exists (packVerb (length (members m)) (verb m)). split.
  - unfold messageWire, bodyWire. by destruct (sender m).
  - rewrite packVerb_wraps by done.
    destruct (unpack_sum (Z.of_nat (length (members m)) mod 64) (verb m))
      as [-> ->]; [apply Z.mod_pos_bound; lia|done|].
    split; [done|].
    assert (Hmod : Z.to_nat (Z.of_nat (length (members m)) mod 64)
                   = length (members m) mod 64).
    { change 64%Z with (Z.of_nat 64). rewrite <- Nat2Z.inj_mod. apply Nat2Z.id. }
    rewrite Hmod. split; [done|].
    intros Hbig. pose proof (Nat.mod_upper_bound (length (members m)) 64). lia.
Qed.

Lemma encode_count_modulo_64_witness :
  exists v,
    messageWire 4 crowdMessage !! 4 = Some v /\
    unpackVerb v = verb crowdMessage /\
    unpackCount v = length (members crowdMessage) mod 64 /\
    (63 < length (members crowdMessage) ->
     unpackCount v <> length (members crowdMessage)).
Proof.
  apply (encode_count_modulo_64 4 crowdMessage (messageWire 4 crowdMessage)).
  - vm_compute. reflexivity.
  - unfold defined_verb, crowdMessage, verbPing. cbn [verb]. lia.
Defined.

(** ** Whole slots *)

Lemma decodeMember_within (ipLen : nat) (knownNodes : list Node) (s : slice)
    (p p' : nat) (member : messageMember) :
  decodeMember ipLen knownNodes s p = Return (member, p') ->
  p' = p + (9 + ipLen + ipLen) /\ p' <= len s.
Proof.
  unfold decodeMember. cbv zeta. intros H.
  bind_inv H as mstatus Hst.
  bind_inv H as mip Hmip.
  bind_inv H as [mport p1] Hmport. apply decodeUint16_Return in Hmport as [_ ->].
  bind_inv H as [mcode p2] Hmcode. apply decodeUint32_Return in Hmcode as [_ ->].
  bind_inv H as sip Hsip.
  bind_inv H as [sport p3] Hsport. apply decodeUint16_Return in Hsport as [Hend ->].
  injection H as _ <-. split; lia.
Qed.

Lemma decodeMembers_loop_whole (ipLen : nat) (knownNodes : list Node)
    (fuel : nat) (s : slice) (p : nat) (acc res : list messageMember) :
  decodeMembers_loop ipLen knownNodes fuel s p acc = Return res ->
  p <= len s ->
  exists ms, res = acc ++ ms /\ len s = p + length ms * (9 + ipLen + ipLen).
Proof.
  revert p acc. induction fuel as [|fuel IH]; intros p acc H Hp;
    cbn [decodeMembers_loop] in H;
    destruct (Nat.ltb_spec p (len s)) as [Hlt|Hge]; try discriminate.
  - injection H as <-. exists []. rewrite app_nil_r. split; [done|]. cbn. lia.
  - bind_inv H as [member p'] Hm.
    apply decodeMember_within in Hm as [-> Hin].
    apply IH in H as (ms & -> & Hlen); [|done].
    exists (member :: ms). rewrite <- app_assoc. split; [done|].
    cbn [length]. lia.
  - injection H as <-. exists []. rewrite app_nil_r. split; [done|]. cbn. lia.
Qed.

(** X5: [decodeMembers] returns exactly on the slices that are a whole
    number of member slots long, and then returns one member per slot; on
    every other slice it panics.  The count it is given plays no part. *)
Theorem decodeMembers_whole_slots (ipLen : nat) (knownNodes : list Node)
    (memberCount : nat) (s : slice) :
  ipLen = 4 \/ ipLen = 16 ->
  ((exists ms, decodeMembers ipLen knownNodes memberCount s = Return ms)
   <-> len s mod (9 + 2 * ipLen) = 0) /\
  (forall ms,
     decodeMembers ipLen knownNodes memberCount s = Return ms ->
     len s = length ms * (9 + 2 * ipLen)) /\
  (len s mod (9 + 2 * ipLen) <> 0 ->
   exists f, decodeMembers ipLen knownNodes memberCount s = Panic f).
Proof.
  intros Hip. replace (9 + 2 * ipLen) with (9 + ipLen + ipLen) by lia.
  assert (Hwhole : forall ms,
    decodeMembers ipLen knownNodes memberCount s = Return ms ->
    len s = length ms * (9 + ipLen + ipLen)).
  { intros ms H. unfold decodeMembers in H.
    apply decodeMembers_loop_whole in H as (ms' & -> & Hlen); [|lia].
    exact Hlen. }
  assert (Hiff : (exists ms, decodeMembers ipLen knownNodes memberCount s = Return ms)
                 <-> len s mod (9 + ipLen + ipLen) = 0).
  { split.
    - intros [ms H]. rewrite (Hwhole ms H). apply Nat.Div0.mod_mul.
    - intros Hmod.
      destruct (decodeMembers_count_of_length ipLen knownNodes memberCount s
                  (len s / (9 + ipLen + ipLen)) Hip) as (ms & Hms & _).
      + pose proof (Nat.div_mod_eq (len s) (9 + ipLen + ipLen)). lia.
      + by exists ms. }
  split; [exact Hiff|]. split; [exact Hwhole|].
  intros Hmod.
  destruct (decodeMembers ipLen knownNodes memberCount s) as [ms|f|] eqn:E.
  - destruct Hmod. apply Hiff. by exists ms.
  - by exists f.
  - by apply decodeMembers_fuel_enough in E.
Qed.

Lemma decodeMembers_whole_slots_witness :
  len (full slotWithStatus200) = 1 * (9 + 2 * 4) /\
  exists f, decodeMembers 4 [] 1 (full (0%Z :: slotWithStatus200)) = Panic f.
Proof.
  destruct (decodeMembers_whole_slots 4 [] 1 (full slotWithStatus200)
              (or_introl eq_refl)) as (_ & Hwhole & _).
  destruct (decodeMembers_whole_slots 4 [] 1 (full (0%Z :: slotWithStatus200))
              (or_introl eq_refl)) as (_ & _ & Hpanic).
  split.
  - apply (Hwhole [{| source := Some (transient (IPv4 10 0 0 1) 7946%Z);
                      heartbeat := 7%Z;
                      node := Some (transient (IPv4 10 0 0 2) 9999%Z);
                      status := 200%Z |}]).
    reflexivity.
  - apply Hpanic. cbn. discriminate.
Defined.

(** ** Datagrams and their declared member count *)

Section DeclaredCount.

Variable ipLen : nat.
Variable knownNodes : list Node.

(** What [decodeMessage] goes on to do once the checksum check has passed on
    a datagram that holds a whole header. *)
Lemma decodeMessage_after_header (sourceIP : IP) (bytes : slice) :
  decodeUint32 bytes 0 = Return (adler32 (drop 4 (elems bytes)), 4) ->
  11 <= len bytes ->
  exists v senderPort hb,
    index bytes 4 = Return v /\
    decodeUint16 bytes 5 = Return (senderPort, 7) /\
    decodeUint32 bytes 7 = Return (hb, 11) /\
    decodeMessage ipLen knownNodes sourceIP bytes =
      (let m := newMessage (unpackVerb v)
                  (lookupOrCreate knownNodes sourceIP senderPort) hb in
       let memberLastIndex := 11 + unpackCount v * (9 + ipLen + ipLen) in
       let* m :=
         if 11 <? len bytes then
           let* s := reslice bytes 11 memberLastIndex in
           let* ms := decodeMembers ipLen knownNodes (unpackCount v) s in
           Return (set_members m ms)
         else Return m in
       let* '(b, err) :=
         if memberLastIndex <? len bytes then
           let* s := reslice_from bytes memberLastIndex in
           Return (decodeBroadcast ipLen knownNodes s)
         else Return (broadcast m, None) in
       Return (addBroadcast m b, err)).
Proof.
  intros Hsum Hlen.
  destruct (index_lt bytes 4) as (v & Hv & _); [lia|].
  destruct (decodeUint16_total bytes 5) as (senderPort & Hport); [lia|].
  destruct (decodeUint32_total bytes 7) as (hb & Hhb); [lia|].
  exists v, senderPort, hb. do 3 (split; [done|]).
  unfold decodeMessage. cbv zeta.
  rewrite Hsum. cbn [bind]. rewrite reslice_from_le by lia. cbn [bind elems].
  rewrite Z.eqb_refl. cbn [negb]. unfold decodeByte. rewrite Hv. cbn [bind].
  change (4 + 1) with 5. rewrite Hport. cbn [bind].
  change (5 + 2) with 7. rewrite Hhb. cbn [bind].
  reflexivity.
Qed.

(** X6: a datagram that is a header and nothing more decodes, when its
    checksum is right, to a message without members and without broadcast
    and to no error, whatever member count its packed byte declares. *)
Theorem decodeMessage_header_only (sourceIP : IP) (bytes : slice) :
  decodeUint32 bytes 0 = Return (adler32 (drop 4 (elems bytes)), 4) ->
  len bytes = 11 ->
  exists r v hb,
    decodeMessage ipLen knownNodes sourceIP bytes = Return (r, None) /\
    index bytes 4 = Return v /\
    decodeUint32 bytes 7 = Return (hb, 11) /\
    verb r = unpackVerb v /\
    senderHeartbeat r = hb /\
    members r = [] /\
    broadcast r = None.
Proof.
  intros Hsum Hlen.
  destruct (decodeMessage_after_header sourceIP bytes Hsum)
    as (v & senderPort & hb & Hv & _ & Hhb & ->); [lia|].
  cbv zeta. rewrite Hlen. cbn [Nat.ltb Nat.leb bind].
  destruct (Nat.ltb_spec (11 + unpackCount v * (9 + ipLen + ipLen)) 11); [lia|].
  cbn [bind]. eexists _, v, hb. split; [reflexivity|]. by repeat split.
Qed.

(** X7: a datagram that goes on after its header and declares more members
    than it holds is not refused when the slice has the capacity for the
    declared member block: [decodeMessage] then returns as many members as
    were declared, built in part from the bytes of the backing array behind
    the datagram, with no broadcast and no error. *)
Theorem decodeMessage_reads_behind_datagram (sourceIP : IP) (bytes : slice) (v : Z) :
  ipLen = 4 \/ ipLen = 16 ->
  decodeUint32 bytes 0 = Return (adler32 (drop 4 (elems bytes)), 4) ->
  index bytes 4 = Return v ->
  11 < len bytes ->
  len bytes <= 11 + unpackCount v * (9 + ipLen + ipLen) ->
  11 + unpackCount v * (9 + ipLen + ipLen) <= cap bytes ->
  exists r,
    decodeMessage ipLen knownNodes sourceIP bytes = Return (r, None) /\
    length (members r) = unpackCount v /\
    broadcast r = None.
Proof.
  intros Hip Hsum Hv Hlen Hover Hcap.
  destruct (decodeMessage_after_header sourceIP bytes Hsum)
    as (v' & senderPort & hb & Hv' & _ & _ & ->); [lia|].
  rewrite Hv in Hv'. injection Hv' as <-. cbv zeta.
  rewrite (proj2 (Nat.ltb_lt 11 (len bytes))) by lia.
  destruct (reslice bytes 11 (11 + unpackCount v * (9 + ipLen + ipLen)))
    as [s| |] eqn:Hs.
  - apply reslice_Return in Hs as (_ & _ & Hs & _). cbn [bind].
    destruct (decodeMembers_count_of_length ipLen knownNodes (unpackCount v) s
                (unpackCount v) Hip) as (ms & -> & Hcount); [lia|].
    cbn [bind].
    destruct (Nat.ltb_spec (11 + unpackCount v * (9 + ipLen + ipLen)) (len bytes));
      [lia|].
    cbn [bind]. eexists. split; [reflexivity|]. by split.
  - unfold reslice in Hs.
    rewrite (proj2 (Nat.leb_le 11 _)), (proj2 (Nat.leb_le _ (cap bytes))) in Hs
      by lia.
    discriminate.
  - by apply reslice_terminates in Hs.
Qed.

End DeclaredCount.

Lemma decodeMessage_header_only_witness :
  exists r v hb,
    decodeMessage 4 [] (ip nodeA) (full headerOnlyDatagram) = Return (r, None) /\
    index (full headerOnlyDatagram) 4 = Return v /\
    decodeUint32 (full headerOnlyDatagram) 7 = Return (hb, 11) /\
    verb r = unpackVerb v /\
    senderHeartbeat r = hb /\
    members r = [] /\
    broadcast r = None.
Proof.
  apply (decodeMessage_header_only 4 [] (ip nodeA) (full headerOnlyDatagram));
    reflexivity.
Defined.

Lemma decodeMessage_reads_behind_datagram_witness :
  exists r,
    decodeMessage 4 [] (ip nodeA)
      (Slice overclaimingDatagram (replicate 2020 0%Z)) = Return (r, None) /\
    length (members r) = unpackCount 8 /\
    broadcast r = None.
Proof.
  apply (decodeMessage_reads_behind_datagram 4 [] (ip nodeA)
           (Slice overclaimingDatagram (replicate 2020 0%Z)) 8%Z).
  - left. reflexivity.
  - reflexivity.
  - reflexivity.
  - vm_compute. lia.
  - vm_compute. lia.
  - vm_compute. lia.
Defined.

Lemma decodeMessage_overclaim_panics_witness :
  decodeMessage 4 [] (ip nodeA) (full overclaimingDatagram) = Panic SliceBounds.
Proof.
  apply (decodeMessage_overclaim_panics 4 [] (ip nodeA)
           (full overclaimingDatagram) 8%Z).
  - reflexivity.
  - reflexivity.
  - vm_compute. lia.
  - vm_compute. lia.
Defined.

Lemma decodeMessage_short_panics_witness :
  decodeMessage 4 [] (ip nodeA) (Slice [1; 2; 3]%Z (replicate 2045 0%Z))
    = Panic IndexOutOfRange.
Proof.
  apply (decodeMessage_short_panics 4 [] (ip nodeA)
           (Slice [1; 2; 3]%Z (replicate 2045 0%Z))).
  vm_compute. lia.
Defined.

Lemma decodeMembers_pointers_set_witness :
  Forall (fun x => node x <> None /\ source x <> None) (members decodedGossip).
Proof.
  apply (decodeMembers_pointers_set 4 [] 1
           (Slice (take 17 (drop 11 gossipDatagram)) [])
           (members decodedGossip)).
  reflexivity.
Defined.

(** ** When [encode] panics *)

Lemma store_terminates (b : list Z) (i : nat) (v : Z) : store b i v <> OutOfFuel.
Proof. unfold store. by destruct (i <? length b). Qed.

Lemma deref_terminates {A : Type} (p : option A) : deref p <> OutOfFuel.
Proof. by destruct p. Qed.

Lemma encodeUint16_terminates (n : Z) (b : list Z) (p : nat) :
  encodeUint16 n b p <> OutOfFuel.
Proof.
  unfold encodeUint16.
  repeat (apply bind_terminates; [apply store_terminates | intros ?]).
  discriminate.
Qed.

Lemma encodeUint32_terminates (n : Z) (b : list Z) (p : nat) :
  encodeUint32 n b p <> OutOfFuel.
Proof.
  unfold encodeUint32.
  repeat (apply bind_terminates; [apply store_terminates | intros ?]).
  discriminate.
Qed.

Lemma writeIP_terminates (n : nat) (ipb b : list Z) (p i : nat) :
  writeIP ipb b p i n <> OutOfFuel.
Proof.
  revert b i. induction n as [|n IH]; intros b i; cbn [writeIP]; [discriminate|].
  apply bind_terminates; [unfold at_index; by destruct (ipb !! i) | intros x].
  apply bind_terminates; [apply store_terminates | intros b']. apply IH.
Qed.

Lemma writeAll_terminates (bb b : list Z) (p i : nat) :
  writeAll bb b p i <> OutOfFuel.
Proof.
  revert b i. induction bb as [|v bb IH]; intros b i; cbn [writeAll]; [discriminate|].
  apply bind_terminates; [apply store_terminates | intros b']. apply IH.
Qed.

Section EncodePanics.

Variable ipLen : nat.

Lemma pickIP_terminates (ipb : IP) (n : option Node) :
  pickIP ipLen ipb n <> OutOfFuel.
Proof.
  unfold pickIP.
  destruct (ipLen =? IPv4len); [|destruct (ipLen =? IPv6len)];
    try discriminate;
    (apply bind_terminates; [apply deref_terminates | discriminate]).
Qed.

Lemma encodeMember_terminates (member : messageMember) (b : list Z) (p : nat) :
  encodeMember ipLen member b p <> OutOfFuel.
Proof.
  unfold encodeMember. cbv zeta.
  apply bind_terminates; [apply store_terminates | intros b1].
  apply bind_terminates; [apply pickIP_terminates | intros ipb].
  apply bind_terminates; [apply writeIP_terminates | intros b2].
  apply bind_terminates; [apply deref_terminates | intros mn].
  apply bind_terminates; [apply encodeUint16_terminates | intros [b3 n3]].
  apply bind_terminates; [apply encodeUint32_terminates | intros [b4 n4]].
  destruct (source member) as [sn|]; [|discriminate].
  apply bind_terminates; [apply pickIP_terminates | intros ipb'].
  apply bind_terminates; [apply writeIP_terminates | intros b5].
  apply bind_terminates; [apply encodeUint16_terminates | intros [b6 n6]].
  discriminate.
Qed.

Lemma encodeMembers_terminates (ms : list messageMember) (b : list Z) (p : nat) :
  encodeMembers ipLen ms b p <> OutOfFuel.
Proof.
  revert b p. induction ms as [|member ms IH]; intros b p; cbn [encodeMembers];
    [discriminate|].
  apply bind_terminates; [apply encodeMember_terminates | intros [b' p']]. apply IH.
Qed.

Lemma Broadcast_encode_terminates (b : Broadcast) :
  Broadcast_encode ipLen b <> OutOfFuel.
Proof.
  unfold Broadcast_encode. cbv zeta.
  apply bind_terminates; [apply pickIP_terminates | intros ipb].
  apply bind_terminates; [apply writeIP_terminates | intros b1].
  apply bind_terminates; [apply deref_terminates | intros o].
  apply bind_terminates; [apply encodeUint16_terminates | intros [b2 n2]].
  apply bind_terminates; [apply encodeUint32_terminates | intros [b3 n3]].
  apply bind_terminates; [apply encodeUint16_terminates | intros [b4 n4]].
  discriminate.
Qed.

Lemma encode_terminates (m : message) : encode ipLen m <> OutOfFuel.
Proof.
  unfold encode. cbv zeta.
  apply bind_terminates; [|intros [b1 n1]].
  { unfold encodeByte.
    apply bind_terminates; [apply store_terminates | discriminate]. }
  apply bind_terminates; [apply deref_terminates | intros s].
  apply bind_terminates; [apply encodeUint16_terminates | intros [b2 n2]].
  apply bind_terminates; [apply encodeUint32_terminates | intros [b3 n3]].
  apply bind_terminates; [apply encodeMembers_terminates | intros [b4 p4]].
  apply bind_terminates; [|intros b5].
  { destruct (broadcast m) as [b|]; [|discriminate].
    apply bind_terminates; [apply Broadcast_encode_terminates | intros bb].
    apply writeAll_terminates. }
  apply bind_terminates; [|intros tail].
  { unfold reslice_from. by destruct (4 <=? len (full b5)). }
  apply bind_terminates; [apply encodeUint32_terminates | intros [b6 n6]].
  discriminate.
Qed.

(** X8: [encode] has no error result and panics instead.  It returns
    exactly on the messages whose sender is set, whose members all have a
    node, and whose nodes, sources and broadcast origin have an address of
    the configured family; what it returns is then the checksum followed by
    the packed byte, the sender's port and heartbeat, the member slots in
    order and the broadcast.  On every other message it panics, and with a
    nil-pointer fault when the sender is nil. *)
Theorem encode_returns_or_panics (m : message) :
  (forall bs,
     encode ipLen m = Return bs <->
     encodable ipLen m /\ bs = messageWire ipLen m) /\
  (~ encodable ipLen m -> exists f, encode ipLen m = Panic f) /\
  (sender m = None -> encode ipLen m = Panic NilDereference).
Proof.
  split; [intros bs; apply encode_Return_wire|]. split.
  - intros Hno. destruct (encode ipLen m) as [bs|f|] eqn:E.
    + destruct Hno. by apply encode_Return in E.
    + by exists f.
    + by apply encode_terminates in E.
  - intros Hs. unfold encode, encodeByte, store. cbv zeta.
    rewrite length_replicate.
    match goal with
    | |- context [4 <? ?n] => destruct (Nat.ltb_spec 4 n) as [_|Hn];
                              [|destruct (broadcast m); lia]
    end.
    cbn [bind]. by rewrite Hs.
Qed.

End EncodePanics.

(** An address has a form of the configured family when [To4], in an IPv4
    process, or [To16], in an IPv6 process, does not return nil. *)
Lemma encodable_node_family (n : Node) :
  (encodable_node 4 n <-> To4 (ip n) <> []) /\
  (encodable_node 16 n <-> To16 (ip n) <> []).
Proof.
  unfold encodable_node, wireIP, To4, To16, IPv4len, IPv6len. cbn [Nat.eqb].
  split.
  - destruct (Nat.eqb_spec (length (ip n)) 4) as [H4|H4].
    + rewrite take_ge by lia. split; [|done]. intros _ E. by rewrite E in H4.
    + destruct (Nat.eqb_spec (length (ip n)) 16) as [H16|H16]; cbn [andb];
        [|by rewrite take_nil].
      destruct (bool_decide (take 12 (ip n) = v4InV6Prefix)); [|by rewrite take_nil].
      rewrite take_ge by (rewrite length_drop; lia).
      rewrite length_drop. split; [|lia].
      intros _ E. apply (f_equal length) in E. rewrite length_drop in E.
      simpl in E. lia.
  - destruct (Nat.eqb_spec (length (ip n)) 4) as [H4|H4].
    + rewrite take_ge by (rewrite length_app; simpl; lia).
      rewrite length_app. simpl. split; [done|lia].
    + destruct (Nat.eqb_spec (length (ip n)) 16) as [H16|H16];
        [|by rewrite take_nil].
      rewrite take_ge by lia. split; [|done]. intros _ E. by rewrite E in H16.
Qed.

Lemma encode_returns_or_panics_witness :
  (exists f, encode 4 (set_members pingFromA [forwardToMember]) = Panic f) /\
  encode 4 pingWithForwardTo = Panic NilDereference.
Proof.
  destruct (encode_returns_or_panics 4 (set_members pingFromA [forwardToMember]))
    as (_ & Hpanic & _).
  destruct (encode_returns_or_panics 4 pingWithForwardTo) as (_ & _ & Hnil).
  split.
  - apply Hpanic. intros (_ & Hms & _).
    inversion Hms as [|? ? [Hnode _] _]. exact Hnode.
  - apply Hnil. reflexivity.
Defined.

(** ** What the checksum detects *)

Lemma lor_shiftl_add (hi lo k : Z) :
  (0 <= k)%Z -> (0 <= lo < 2 ^ k)%Z ->
  Z.lor (Z.shiftl hi k) lo = (hi * 2 ^ k + lo)%Z.
Proof.
  intros Hk Hlo. rewrite <- Z.shiftl_mul_pow2 by lia.
  symmetry. apply Z.add_nocarry_lor.
  apply Z.bits_inj'. intros i Hi. rewrite Z.bits_0, Z.land_spec.
  destruct (Z.lt_ge_cases i k) as [Hlt|Hge].
  - rewrite Z.shiftl_spec by lia. by rewrite Z.testbit_neg_r by lia.
  - rewrite (uint_testbit_high lo k i) by lia. apply andb_false_r.
Qed.

(** The value [decodeUint32] reads from four bytes. *)
Lemma uint32_of_bytes (b0 b1 b2 b3 : Z) :
  is_byte b0 -> is_byte b1 -> is_byte b2 -> is_byte b3 ->
  Z.lor (Z.lor (Z.lor (Z.shiftl b0 24) (Z.shiftl b1 16)) (Z.shiftl b2 8)) b3
    = (b0 * 16777216 + b1 * 65536 + b2 * 256 + b3)%Z.
Proof.
  unfold is_byte. intros H0 H1 H2 H3.
  replace (Z.shiftl b0 24) with (Z.shiftl (Z.shiftl b0 8) 16)
    by (rewrite Z.shiftl_shiftl by lia; reflexivity).
  rewrite <- Z.shiftl_lor.
  replace (Z.shiftl (Z.lor (Z.shiftl b0 8) b1) 16)
    with (Z.shiftl (Z.shiftl (Z.lor (Z.shiftl b0 8) b1) 8) 8)
    by (rewrite Z.shiftl_shiftl by lia; reflexivity).
  rewrite <- Z.shiftl_lor.
  rewrite (lor_shiftl_add b0 b1 8) by lia.
  rewrite (lor_shiftl_add _ b2 8) by lia.
  rewrite (lor_shiftl_add _ b3 8) by lia.
  lia.
Qed.

Lemma sum_app (l k : list Z) :
  foldr Z.add 0%Z (l ++ k) = (foldr Z.add 0%Z l + foldr Z.add 0%Z k)%Z.
Proof. induction l as [|x l IH]; cbn; lia. Qed.

Lemma adler32_fold_low (bs : list Z) (a b : Z) :
  (fst (fold_left adler32_step bs (a, b)) mod 65521
   = (a + foldr Z.add 0%Z bs) mod 65521)%Z.
Proof.
  revert a b. induction bs as [|x bs IH]; intros a b; cbn [fold_left foldr].
  - by rewrite Z.add_0_r.
  - unfold adler32_step at 2. cbn [fst snd]. rewrite IH.
    rewrite Zplus_mod_idemp_l. f_equal. lia.
Qed.

(** The low half of the sum is one plus the sum of the bytes, modulo
    65521. *)
Lemma adler32_low (bs : list Z) :
  (adler32 bs mod 65536 = (1 + foldr Z.add 0%Z bs) mod 65521)%Z.
Proof.
  unfold adler32.
  destruct (adler32_fold_range bs 1 0) as [Ha Hb]; [lia..|].
  rewrite <- adler32_fold_low with (b := 0%Z).
  set (st := fold_left adler32_step bs (1%Z, 0%Z)) in *.
  rewrite (lor_shiftl_add (snd st) (fst st) 16) by lia.
  rewrite (Z.mod_small (fst st) 65521) by lia.
  change (2 ^ 16)%Z with 65536%Z.
  rewrite Z.add_comm, Z.mod_add by lia. apply Z.mod_small. lia.
Qed.

(** Changing one byte changes the sum. *)
Lemma adler32_one_byte (bs : list Z) (j : nat) (x v : Z) :
  bs !! j = Some x -> is_byte x -> is_byte v -> x <> v ->
  adler32 (<[j:=v]> bs) <> adler32 bs.
Proof.
  intros Hj Hx Hv Hne Heq. unfold is_byte in *.
  apply (f_equal (fun z => z mod 65536)%Z) in Heq.
  rewrite !adler32_low in Heq.
  pose proof (lookup_lt_Some _ _ _ Hj) as Hlt.
  rewrite insert_take_drop in Heq by done.
  rewrite <- (take_drop_middle bs j x Hj) in Heq at 3.
  rewrite !sum_app in Heq. cbn [foldr] in Heq.
  revert Heq.
  generalize (foldr Z.add 0%Z (take j bs)) (foldr Z.add 0%Z (drop (S j) bs)).
  intros s1 s2 Heq. Z.div_mod_to_equations. lia.
Qed.

(** X9: a datagram whose checksum is right stops being accepted as soon as
    one of its bytes is changed, in the checksum field or after it:
    [decodeMessage] then returns the checksum error.  A single flipped bit
    is such a change. *)
Theorem checksum_detects_one_changed_byte (ipLen : nat) (knownNodes : list Node)
    (sourceIP : IP) (bs spare0 : list Z) (i : nat) (v : Z) :
  Forall is_byte bs -> is_byte v ->
  decodeUint32 (Slice bs spare0) 0 = Return (adler32 (drop 4 bs), 4) ->
  i < length bs -> bs !! i <> Some v ->
  decodeMessage ipLen knownNodes sourceIP (Slice (<[i:=v]> bs) spare0)
    = Return (newMessage 255%Z None 0%Z, Some (ErrChecksumFailure sourceIP)).
Proof.
  intros Hbs Hv Hsum Hi Hchg.
  destruct (decodeUint32_Return _ _ _ _ Hsum) as [Hlen _]. unfold len in Hlen.
  cbn [elems] in Hlen.
  destruct bs as [|b0 [|b1 [|b2 [|b3 body]]]]; try (simpl in Hlen; lia).
  unfold decodeUint32, index in Hsum. cbn in Hsum. injection Hsum as Hsum.
  rewrite !Forall_cons in Hbs. destruct Hbs as (Hq0 & Hq1 & Hq2 & Hq3 & Hbody).
  rewrite uint32_of_bytes, drop_0 in Hsum by done.
  assert (Hfail : forall c0 c1 c2 c3 body',
    is_byte c0 -> is_byte c1 -> is_byte c2 -> is_byte c3 ->
    (c0 * 16777216 + c1 * 65536 + c2 * 256 + c3)%Z <> adler32 body' ->
    decodeMessage ipLen knownNodes sourceIP
      (Slice (c0 :: c1 :: c2 :: c3 :: body') spare0)
    = Return (newMessage 255%Z None 0%Z, Some (ErrChecksumFailure sourceIP))).
  { intros c0 c1 c2 c3 body' Hc0 Hc1 Hc2 Hc3 Hne.
    eapply decodeMessage_mismatch.
    - unfold decodeUint32, index. cbn. reflexivity.
    - cbn [elems]. change (drop 4 (c0 :: c1 :: c2 :: c3 :: body')) with body'.
      rewrite uint32_of_bytes by done. intros E. by apply Hne. }
  unfold is_byte in *.
  destruct i as [|[|[|[|j]]]]; cbn in Hchg |- *.
  - apply Hfail; unfold is_byte; try done. rewrite <- Hsum.
    intros E. apply Hchg. f_equal. lia.
  - apply Hfail; unfold is_byte; try done. rewrite <- Hsum.
    intros E. apply Hchg. f_equal. lia.
  - apply Hfail; unfold is_byte; try done. rewrite <- Hsum.
    intros E. apply Hchg. f_equal. lia.
  - apply Hfail; unfold is_byte; try done. rewrite <- Hsum.
    intros E. apply Hchg. f_equal. lia.
  - destruct (lookup_lt_is_Some_2 body j) as [x Hx]; [simpl in Hi; lia|].
    apply Hfail; unfold is_byte; try done. rewrite Hsum.
    apply not_eq_sym, (adler32_one_byte body j x v Hx); unfold is_byte.
    + rewrite Forall_forall in Hbody. apply Hbody.
      by eapply list_elem_of_lookup_2.
    + done.
    + intros ->. by apply Hchg.
Qed.

Lemma checksum_detects_one_changed_byte_witness :
  decodeMessage 4 [] (ip nodeA) (full (<[21:=6%Z]> gossipDatagram))
    = Return (newMessage 255%Z None 0%Z, Some (ErrChecksumFailure (ip nodeA))).
Proof.
  apply (checksum_detects_one_changed_byte 4 [] (ip nodeA) gossipDatagram [] 21 6%Z).
  - unfold gossipDatagram, is_byte. repeat (constructor; [lia|]). constructor.
  - unfold is_byte. lia.
  - reflexivity.
  - vm_compute. lia.
  - vm_compute. discriminate.
Defined.

(** ** Round trip *)

Section RoundTripAbsentSource.

Variable ipLen : nat.
Variable knownNodes : list Node.
Hypothesis ipLen_family : ipLen = 4 \/ ipLen = 16.

Lemma zeroNode_wire :
  wireIP ipLen (zeroNode ipLen) ++ be16 0 = replicate (ipLen + 2) 0%Z.
Proof using ipLen_family. by destruct ipLen_family as [-> | ->]. Qed.

Lemma zeroNode_encodable : encodable_node ipLen (zeroNode ipLen).
Proof using ipLen_family. by destruct ipLen_family as [-> | ->]. Qed.

Lemma fill_source_wire (x : messageMember) :
  memberWire ipLen (fill_source ipLen x) = memberWire ipLen x.
Proof using ipLen_family.
  unfold fill_source, memberWire, sourceWire.
  destruct (source x) as [sn|] eqn:Es; [by rewrite Es|].
  cbn [node source status heartbeat].
  change (port (zeroNode ipLen)) with 0%Z. by rewrite zeroNode_wire.
Qed.

Lemma fill_source_id (x : messageMember) :
  source x <> None -> fill_source ipLen x = x.
Proof. unfold fill_source. by destruct (source x). Qed.

Lemma fill_sources_id (m : message) :
  Forall (fun x => source x <> None) (members m) -> fill_sources ipLen m = m.
Proof.
  intros Hall. unfold fill_sources.
  assert (Hmap : map (fill_source ipLen) (members m) = members m).
  { induction Hall as [|x xs Hx _ IH]; [done|].
    cbn [map]. by rewrite fill_source_id, IH. }
  rewrite Hmap. by destruct m.
Qed.

Lemma fill_sources_wire (m : message) :
  messageWire ipLen (fill_sources ipLen m) = messageWire ipLen m.
Proof using ipLen_family.
  unfold messageWire, bodyWire, fill_sources.
  cbn [set_members sender members verb senderHeartbeat broadcast].
  rewrite length_map, map_map.
  rewrite (map_ext _ (memberWire ipLen) fill_source_wire).
  reflexivity.
Qed.

Lemma fill_sources_encodable (m : message) :
  encodable ipLen m -> encodable ipLen (fill_sources ipLen m).
Proof using ipLen_family.
  intros (Hs & Hms & Hb). unfold encodable, fill_sources.
  cbn [set_members sender members broadcast].
  split; [done|]. split; [|done].
  apply Forall_map. eapply Forall_impl; [exact Hms|].
  intros x [Hnode Hsrc]. unfold fill_source.
  destruct (source x) as [sn|] eqn:Es; [split; [done|by rewrite Es]|].
  split; [exact Hnode|]. cbn [source]. intros ? [= <-]. apply zeroNode_encodable.
Qed.

Lemma fill_sources_typed (m : message) :
  typed_message m -> typed_message (fill_sources ipLen m).
Proof using ipLen_family.
  intros (Hv & Hn & Hhb & Hs & Hms & Hb). unfold typed_message, fill_sources.
  cbn [set_members sender members verb senderHeartbeat broadcast].
  rewrite length_map. do 4 (split; [done|]). split; [|done].
  apply Forall_map. eapply Forall_impl; [exact Hms|].
  intros x (Hst & Hh & Hnode & Hsrc). unfold fill_source.
  destruct (source x) as [sn|] eqn:Es; [unfold typed_member; by rewrite Es|].
  unfold typed_member. cbn [source status heartbeat node].
  do 3 (split; [done|]). intros ? [= <-]. unfold is_uint16. cbn. lia.
Qed.

(** X10: round trip.  In an IPv4 or IPv6 process, a message with values of
    the Go types, one of the four verbs, at most 63 members and a broadcast
    payload of fewer than 65536 bytes that
    [encode] accepts comes back from [decodeMessage], given an address of
    the sender as source address, with no error and field for field the
    same (nodes compared by address and port), except that a member which
    named no source comes back with the node at the all-zero address and
    port 0 as its source: the datagram is the one of the message with that
    node put in for every absent source.  A message whose members all name
    a source comes back the same without exception.  This holds for every
    directory and every spare capacity of the slice. *)
Theorem round_trip_up_to_absent_sources (m : message) (bs : list Z)
    (sourceIP : IP) (spare0 : list Z) :
  typed_message m ->
  encode ipLen m = Return bs ->
  (forall s, sender m = Some s -> IPEqual sourceIP (ip s) = true) ->
  encode ipLen (fill_sources ipLen m) = Return bs /\
  exists r,
    decodeMessage ipLen knownNodes sourceIP (Slice bs spare0) = Return (r, None) /\
    same_message r (fill_sources ipLen m) /\
    (Forall (fun x => source x <> None) (members m) -> same_message r m).
Proof using ipLen_family.
  intros Hty Henc Hip.
  apply encode_Return_wire in Henc as [He ->].
  assert (Henc0 : encode ipLen (fill_sources ipLen m)
                  = Return (messageWire ipLen m)).
  { rewrite <- fill_sources_wire. by apply encode_wire, fill_sources_encodable. }
  split; [exact Henc0|].
  destruct (round_trip_with_sources ipLen knownNodes ipLen_family
              (fill_sources ipLen m) (messageWire ipLen m) sourceIP spare0)
    as (r & Hdec & Hsame).
  - by apply fill_sources_typed.
  - exact Henc0.
  - unfold fill_sources. cbn [set_members members].
    apply Forall_map, Forall_forall. intros x _. unfold fill_source.
    destruct (source x) eqn:Es; [by rewrite Es | discriminate].
  - exact Hip.
  - exists r. split; [exact Hdec|]. split; [exact Hsame|].
    intros Hall.
    by rewrite <- (fill_sources_id m Hall).
Qed.

End RoundTripAbsentSource.

Lemma round_trip_up_to_absent_sources_witness :
  encode 4 (fill_sources 4 gossipWithoutSource) = Return gossipDatagram /\
  exists r,
    decodeMessage 4 [nodeA; nodeB] (ip nodeA) (Slice gossipDatagram [])
      = Return (r, None) /\
    same_message r (fill_sources 4 gossipWithoutSource) /\
    (Forall (fun x => source x <> None) (members gossipWithoutSource) ->
     same_message r gossipWithoutSource).
Proof.
  apply (round_trip_up_to_absent_sources 4 [nodeA; nodeB] (or_introl eq_refl)
           gossipWithoutSource gossipDatagram (ip nodeA) []).
  - assert (HB : is_uint16 (port nodeB)) by (unfold is_uint16; cbn; lia).
    assert (HA : is_uint16 (port nodeA)) by (unfold is_uint16; cbn; lia).
    unfold typed_message, typed_ptr, typed_broadcast.
    cbn [verb members senderHeartbeat sender broadcast gossipWithoutSource].
    split; [unfold defined_verb, verbPing; lia|].
    split; [cbn; lia|].
    split; [unfold is_uint32; lia|].
    split; [intros n [= <-]; exact HA|].
    split; [|discriminate].
    constructor; [|constructor].
    unfold typed_member, typed_ptr. cbn [status heartbeat node source].
    split; [unfold is_byte, StatusAlive; lia|].
    split; [unfold is_uint32; lia|].
    split; [intros n [= <-]; exact HB | discriminate].
  - reflexivity.
  - intros s [= <-]. reflexivity.
Defined.

(** ** Truncated headers *)

Lemma decodeUint16_short (s : slice) (p : nat) :
  len s < p + 2 -> decodeUint16 s p = Panic IndexOutOfRange.
Proof.
  intros Hs. unfold decodeUint16.
  destruct (Nat.lt_ge_cases p (len s)) as [H0|H0]; [|by rewrite index_ge].
  destruct (index_lt s p H0) as (b0 & -> & _); cbn [bind].
  rewrite index_ge; [done | lia].
Qed.

(** X12: [decodeMessage] reads the header without looking at the length of
    the datagram.  A datagram shorter than the 4 checksum bytes makes it
    panic; one of 4 to 10 bytes is either refused with the checksum error
    or, when its checksum happens to be right, makes it panic as well.  No
    datagram shorter than a header decodes to a message. *)
Theorem decodeMessage_truncated_header (ipLen : nat) (knownNodes : list Node)
    (sourceIP : IP) (bytes : slice) :
  len bytes < 11 ->
  (len bytes < 4 ->
   decodeMessage ipLen knownNodes sourceIP bytes = Panic IndexOutOfRange) /\
  (decodeMessage ipLen knownNodes sourceIP bytes = Panic IndexOutOfRange \/
   decodeMessage ipLen knownNodes sourceIP bytes
     = Return (newMessage 255%Z None 0%Z, Some (ErrChecksumFailure sourceIP))).
Proof.
  intros Hlen. split; [apply decodeMessage_short_panics|].
  destruct (Nat.lt_ge_cases (len bytes) 4) as [H4|H4];
    [left; by apply decodeMessage_short_panics|].
  destruct (decodeUint32_total bytes 0) as (stated & Hsum); [lia|].
  destruct (Z.eq_dec stated (adler32 (drop 4 (elems bytes)))) as [Heq|Hne];
    [left|right; eapply decodeMessage_mismatch; [exact Hsum|congruence]].
  unfold decodeMessage. cbv zeta. rewrite Hsum. cbn [bind].
  rewrite reslice_from_le by lia. cbn [bind elems].
  rewrite Heq, Z.eqb_refl. cbn [negb]. unfold decodeByte.
  destruct (Nat.lt_ge_cases 4 (len bytes)) as [H5|H5];
    [|by rewrite index_ge by lia].
  destruct (index_lt bytes (0 + 4)) as (v & -> & _); [lia|]. cbn [bind].
  destruct (Nat.lt_ge_cases (len bytes) 7) as [H7|H7];
    [by rewrite decodeUint16_short by lia|].
  destruct (decodeUint16_total bytes (0 + 4 + 1)) as (senderPort & ->); [lia|].
  cbn [bind]. by rewrite decodeUint32_short by lia.
Qed.

Lemma decodeMessage_truncated_header_witness :
  decodeMessage 4 [] (ip nodeA) (full [0; 0; 1]%Z) = Panic IndexOutOfRange /\
  (decodeMessage 4 [] (ip nodeA) (full [0; 0; 0; 1]%Z) = Panic IndexOutOfRange \/
   decodeMessage 4 [] (ip nodeA) (full [0; 0; 0; 1]%Z)
     = Return (newMessage 255%Z None 0%Z, Some (ErrChecksumFailure (ip nodeA)))).
Proof.
  split.
  - apply (decodeMessage_truncated_header 4 [] (ip nodeA) (full [0; 0; 1]%Z));
      vm_compute; lia.
  - apply (decodeMessage_truncated_header 4 [] (ip nodeA) (full [0; 0; 0; 1]%Z)).
    vm_compute. lia.
Defined.

(** * The packed byte, from [encode] to [decodeMessage] *)

Section PackedByte.

Variable ipLen : nat.
Variable knownNodes : list Node.
Hypothesis ipLen_family : ipLen = 4 \/ ipLen = 16.



End PackedByte.



